(** * The shell AST of ast.go and its text reconstruction

    A shallow embedding of [src/ast.go] (package [sh]): the node types, the
    [Pos] methods, and the [String] methods with the joining helpers
    ([stringerJoin], [nodeJoin], [stmtJoinWithEnd], [stmtJoin], [stmtList],
    [wordJoin]), followed by the properties of the rendering that the
    specification states.

    Go strings are byte strings: they are modelled by [string], whose
    characters are the bytes.  A [bytes.Buffer] is modelled by the text
    written to it so far. *)

From Stdlib Require Import List String Ascii Bool Arith ZArith Lia.
Import ListNotations.
Open Scope string_scope.

(* ================================================================= *)
(** ** Strings, buffers and the [fmt] functions the file uses *)

(** The one-byte string "\n". *)
Definition newline_char : ascii := "010"%char.
Definition newline : string := String newline_char "".

(** [s[len(s)-1]], when [len(s) > 0]. *)
Fixpoint lastByte (s : string) : option ascii :=
  match s with
  | "" => None
  | String c "" => Some c
  | String _ rest => lastByte rest
  end.

(** [len(s) > 0 && s[len(s)-1] == c] *)
Definition endsWithByte (s : string) (c : ascii) : bool :=
  match lastByte s with
  | Some d => Ascii.eqb d c
  | None => false
  end.

(** [strings.HasPrefix(s, p)] *)
Fixpoint hasPrefix (p s : string) : bool :=
  match p, s with
  | "", _ => true
  | String _ _, "" => false
  | String a p', String b s' => Ascii.eqb a b && hasPrefix p' s'
  end.

(** The number of positions of [s] at which [p] occurs.  Two occurrences
    of ";; " cannot overlap, so for that pattern this is also the number of
    disjoint occurrences, as [strings.Count] counts them. *)
Fixpoint occurrences (p s : string) : nat :=
  (if hasPrefix p s then 1 else 0) +
  match s with
  | "" => 0
  | String _ s' => occurrences p s'
  end.

(** [strings.Contains(s, p)] *)
Definition contains (p s : string) : bool := negb (Nat.eqb (occurrences p s) 0).

(** [for i, x := range l { st = body i x st }], from index [i]. *)
Definition for_range {A St : Type} (body : nat -> A -> St -> St)
  : nat -> list A -> St -> St :=
  fix loop (i : nat) (l : list A) (st : St) {struct l} : St :=
    match l with
    | [] => st
    | x :: l' => loop (S i) l' (body i x st)
    end.

(** [bytes.Buffer]: the bytes written so far; [b.String()] returns them. *)
Definition Buffer : Type := string.
Definition Buffer_empty : Buffer := "".
Definition Buffer_String (b : Buffer) : string := b.

(** A value of type [fmt.Stringer] is used through its [String] method
    only: it is represented by the text that method returns. *)
Definition Stringer : Type := string.

(** An operand of [fmt.Print]: a Go string, or a value of another kind,
    which is printed through its [String] method. *)
Inductive Operand : Type :=
| str (s : string)
| val (s : Stringer).

Definition Operand_isString (a : Operand) : bool :=
  match a with str _ => true | val _ => false end.

Definition Operand_text (a : Operand) : string :=
  match a with str s => s | val s => s end.

(** [fmt.Fprint(&b, a...)]: the operands in order; a space is added between
    two operands when neither is a string. *)
Definition Fprint (b : Buffer) (a : list Operand) : Buffer :=
  snd (for_range
         (fun argNum arg (st : bool * Buffer) =>
            let '(prevString, b) := st in
            let isString := Operand_isString arg in
            let b := if Nat.ltb 0 argNum && negb isString && negb prevString
                     then b ++ " " else b in
            (isString, b ++ Operand_text arg))
         0 a (false, b)).

(** [fmt.Sprint(a...)] *)
Definition Sprint (a : list Operand) : string :=
  Buffer_String (Fprint Buffer_empty a).

(** [fmt.Fprintln(&b)], without operands: a newline. *)
Definition Fprintln (b : Buffer) : Buffer := b ++ newline.

(** [fmt.Sprintf(format, a...)] for formats whose only verb is [%s]: each
    [%s] is replaced by the text of the next operand. *)
Fixpoint Sprintf (format : string) (a : list Stringer) : string :=
  match format with
  | "" => ""
  | String "%" (String "s" rest) =>
      match a with
      | x :: a' => x ++ Sprintf rest a'
      | [] => "%!s(MISSING)" ++ Sprintf rest []
      end
  | String c rest => String c (Sprintf rest a)
  end.

(** [fmt.Fprintf(&b, format, a...)] *)
Definition Fprintf (b : Buffer) (format : string) (a : list Stringer) : Buffer :=
  b ++ Sprintf format a.

(* ================================================================= *)
(** ** Positions and tokens *)

(** Modelled from the spec: the type [Pos] is declared outside ast.go; the
    spec describes it as a line/column reference into the source whose zero
    value means unknown.  ast.go only builds its zero value, [Pos{}]. *)
Record Pos : Type := mkPos { Line : Z; Column : Z }.

(** [var defaultPos = Pos{}] *)
Definition defaultPos : Pos := mkPos 0 0.

(** Modelled from the spec: the type [Token] and its [String] method are
    declared outside ast.go (the keyword and operator table).  The
    constructors are the constants ast.go names; [TOKEN text] stands for any
    other token of the enumeration (the remaining redirection and binary
    operators), rendered as the text the table gives it. *)
Inductive Token : Type :=
| BANG | AND
| IF | THEN | ELIF | ELSE | FI
| WHILE | UNTIL | DO | DONE
| FOR | IN | CASE | ESAC
| FUNCTION
| HEREDOC | DHEREDOC
| TOKEN (text : string).

(** Modelled from the spec: the literal text of each token; the spec spells
    the keywords in its render rules and the markers in its scenarios, and
    names the two heredoc operators, which the shell writes [<<] and
    [<<-]. *)
Definition Token_String (t : Token) : string :=
  match t with
  | BANG => "!"
  | AND => "&"
  | IF => "if"
  | THEN => "then"
  | ELIF => "elif"
  | ELSE => "else"
  | FI => "fi"
  | WHILE => "while"
  | UNTIL => "until"
  | DO => "do"
  | DONE => "done"
  | FOR => "for"
  | IN => "in"
  | CASE => "case"
  | ESAC => "esac"
  | FUNCTION => "function"
  | HEREDOC => "<<"
  | DHEREDOC => "<<-"
  | TOKEN text => text
  end.

Definition Token_eq_dec (a b : Token) : {a = b} + {a <> b}.
Proof. decide equality. apply string_dec. Defined.

(** Go's [==] on tokens. *)
Definition Token_eqb (a b : Token) : bool :=
  if Token_eq_dec a b then true else false.

(* ================================================================= *)
(** ** The node types *)

(** [type Lit struct { ValuePos Pos; Value string }] *)
Record Lit : Type := mkLit { Lit_ValuePos : Pos; Lit_Value : string }.

(** [type SglQuoted struct { Quote Pos; Value string }] *)
Record SglQuoted : Type :=
  mkSglQuoted { SglQuoted_Quote : Pos; SglQuoted_Value : string }.

(** [type ParamExp struct { Exp Pos; Short bool; Text string }] *)
Record ParamExp : Type :=
  mkParamExp { ParamExp_Exp : Pos; ParamExp_Short : bool; ParamExp_Text : string }.

(** The remaining struct types refer to each other through the interface
    [Node] and through slices.  [Node] has one constructor for each type of
    ast.go that has both methods of the interface, [String] and [Pos].  The
    embedded [Node] of a [Stmt] may be [nil]: it is an [option].  The
    elements of a slice of nodes are taken to be nodes: a [nil] element, on
    which [Pos] cannot be called, is outside the model. *)
Inductive Node : Type :=
| StmtNode (s : Stmt)
| AssignNode (a : Assign)
| CommandNode (c : Command)
| SubshellNode (s : Subshell)
| BlockNode (b : Block)
| IfStmtNode (s : IfStmt)
| WhileStmtNode (w : WhileStmt)
| UntilStmtNode (u : UntilStmt)
| ForStmtNode (f : ForStmt)
| BinaryExprNode (b : BinaryExpr)
| FuncDeclNode (f : FuncDecl)
| WordNode (w : Word)
| LitNode (l : Lit)
| SglQuotedNode (q : SglQuoted)
| DblQuotedNode (q : DblQuoted)
| CmdSubstNode (c : CmdSubst)
| ParamExpNode (p : ParamExp)
| ArithmExpNode (a : ArithmExp)
| CaseStmtNode (c : CaseStmt)
with Stmt : Type :=
| mkStmt (Node : option Node) (Position : Pos) (Negated : bool)
         (Assigns : list Assign) (Redirs : list Redirect) (Background : bool)
with Assign : Type :=
| mkAssign (Name : Lit) (Value : Word)
with Redirect : Type :=
| mkRedirect (OpPos : Pos) (Op : Token) (N : Lit) (Word : Word)
with Command : Type :=
| mkCommand (Args : list Word)
with Subshell : Type :=
| mkSubshell (Lparen Rparen : Pos) (Stmts : list Stmt)
with Block : Type :=
| mkBlock (Lbrace Rbrace : Pos) (Stmts : list Stmt)
with IfStmt : Type :=
| mkIfStmt (If Fi : Pos) (Conds ThenStmts : list Stmt) (Elifs : list Elif)
           (ElseStmts : list Stmt)
with Elif : Type :=
| mkElif (Elif : Pos) (Conds ThenStmts : list Stmt)
with WhileStmt : Type :=
| mkWhileStmt (While Done : Pos) (Conds DoStmts : list Stmt)
with UntilStmt : Type :=
| mkUntilStmt (Until Done : Pos) (Conds DoStmts : list Stmt)
with ForStmt : Type :=
| mkForStmt (For Done : Pos) (Name : Lit) (WordList : list Word)
            (DoStmts : list Stmt)
with BinaryExpr : Type :=
| mkBinaryExpr (OpPos : Pos) (Op : Token) (X Y : Stmt)
with FuncDecl : Type :=
| mkFuncDecl (Position : Pos) (BashStyle : bool) (Name : Lit) (Body : Stmt)
with Word : Type :=
| mkWord (Parts : list Node)
with DblQuoted : Type :=
| mkDblQuoted (Quote : Pos) (Parts : list Node)
with CmdSubst : Type :=
| mkCmdSubst (Left Right : Pos) (Backquotes : bool) (Stmts : list Stmt)
with ArithmExp : Type :=
| mkArithmExp (Exp Rparen : Pos) (Words : list Word)
with CaseStmt : Type :=
| mkCaseStmt (Case Esac : Pos) (Word : Word) (List : list PatternList)
with PatternList : Type :=
| mkPatternList (Patterns : list Word) (Stmts : list Stmt).

(** [type File struct { Name string; Stmts []Stmt }] *)
Record File : Type := mkFile { File_Name : string; File_Stmts : list Stmt }.

(** *** Field access *)

Definition Stmt_Node (s : Stmt) : option Node := let (n, _, _, _, _, _) := s in n.
Definition Stmt_Position (s : Stmt) : Pos := let (_, p, _, _, _, _) := s in p.
Definition Stmt_Negated (s : Stmt) : bool := let (_, _, b, _, _, _) := s in b.
Definition Stmt_Assigns (s : Stmt) : list Assign := let (_, _, _, a, _, _) := s in a.
Definition Stmt_Redirs (s : Stmt) : list Redirect := let (_, _, _, _, r, _) := s in r.
Definition Stmt_Background (s : Stmt) : bool := let (_, _, _, _, _, b) := s in b.

Definition Assign_Name (a : Assign) : Lit := let (n, _) := a in n.
Definition Assign_Value (a : Assign) : Word := let (_, v) := a in v.

Definition Redirect_OpPos (r : Redirect) : Pos := let (p, _, _, _) := r in p.
Definition Redirect_Op (r : Redirect) : Token := let (_, o, _, _) := r in o.
Definition Redirect_N (r : Redirect) : Lit := let (_, _, n, _) := r in n.
Definition Redirect_Word (r : Redirect) : Word := let (_, _, _, w) := r in w.

Definition Command_Args (c : Command) : list Word := let (a) := c in a.

Definition Subshell_Lparen (s : Subshell) : Pos := let (l, _, _) := s in l.
Definition Subshell_Rparen (s : Subshell) : Pos := let (_, r, _) := s in r.
Definition Subshell_Stmts (s : Subshell) : list Stmt := let (_, _, l) := s in l.

Definition Block_Lbrace (b : Block) : Pos := let (l, _, _) := b in l.
Definition Block_Rbrace (b : Block) : Pos := let (_, r, _) := b in r.
Definition Block_Stmts (b : Block) : list Stmt := let (_, _, l) := b in l.

Definition IfStmt_If (s : IfStmt) : Pos := let (p, _, _, _, _, _) := s in p.
Definition IfStmt_Fi (s : IfStmt) : Pos := let (_, p, _, _, _, _) := s in p.
Definition IfStmt_Conds (s : IfStmt) : list Stmt := let (_, _, l, _, _, _) := s in l.
Definition IfStmt_ThenStmts (s : IfStmt) : list Stmt := let (_, _, _, l, _, _) := s in l.
Definition IfStmt_Elifs (s : IfStmt) : list Elif := let (_, _, _, _, l, _) := s in l.
Definition IfStmt_ElseStmts (s : IfStmt) : list Stmt := let (_, _, _, _, _, l) := s in l.

Definition Elif_Elif (e : Elif) : Pos := let (p, _, _) := e in p.
Definition Elif_Conds (e : Elif) : list Stmt := let (_, l, _) := e in l.
Definition Elif_ThenStmts (e : Elif) : list Stmt := let (_, _, l) := e in l.

Definition WhileStmt_While (w : WhileStmt) : Pos := let (p, _, _, _) := w in p.
Definition WhileStmt_Done (w : WhileStmt) : Pos := let (_, p, _, _) := w in p.
Definition WhileStmt_Conds (w : WhileStmt) : list Stmt := let (_, _, l, _) := w in l.
Definition WhileStmt_DoStmts (w : WhileStmt) : list Stmt := let (_, _, _, l) := w in l.

Definition UntilStmt_Until (u : UntilStmt) : Pos := let (p, _, _, _) := u in p.
Definition UntilStmt_Done (u : UntilStmt) : Pos := let (_, p, _, _) := u in p.
Definition UntilStmt_Conds (u : UntilStmt) : list Stmt := let (_, _, l, _) := u in l.
Definition UntilStmt_DoStmts (u : UntilStmt) : list Stmt := let (_, _, _, l) := u in l.

Definition ForStmt_For (f : ForStmt) : Pos := let (p, _, _, _, _) := f in p.
Definition ForStmt_Done (f : ForStmt) : Pos := let (_, p, _, _, _) := f in p.
Definition ForStmt_Name (f : ForStmt) : Lit := let (_, _, n, _, _) := f in n.
Definition ForStmt_WordList (f : ForStmt) : list Word := let (_, _, _, l, _) := f in l.
Definition ForStmt_DoStmts (f : ForStmt) : list Stmt := let (_, _, _, _, l) := f in l.

Definition BinaryExpr_OpPos (b : BinaryExpr) : Pos := let (p, _, _, _) := b in p.
Definition BinaryExpr_Op (b : BinaryExpr) : Token := let (_, o, _, _) := b in o.
Definition BinaryExpr_X (b : BinaryExpr) : Stmt := let (_, _, x, _) := b in x.
Definition BinaryExpr_Y (b : BinaryExpr) : Stmt := let (_, _, _, y) := b in y.

Definition FuncDecl_Position (f : FuncDecl) : Pos := let (p, _, _, _) := f in p.
Definition FuncDecl_BashStyle (f : FuncDecl) : bool := let (_, b, _, _) := f in b.
Definition FuncDecl_Name (f : FuncDecl) : Lit := let (_, _, n, _) := f in n.
Definition FuncDecl_Body (f : FuncDecl) : Stmt := let (_, _, _, b) := f in b.

Definition Word_Parts (w : Word) : list Node := let (p) := w in p.

Definition DblQuoted_Quote (q : DblQuoted) : Pos := let (p, _) := q in p.
Definition DblQuoted_Parts (q : DblQuoted) : list Node := let (_, l) := q in l.

Definition CmdSubst_Left (c : CmdSubst) : Pos := let (l, _, _, _) := c in l.
Definition CmdSubst_Right (c : CmdSubst) : Pos := let (_, r, _, _) := c in r.
Definition CmdSubst_Backquotes (c : CmdSubst) : bool := let (_, _, b, _) := c in b.
Definition CmdSubst_Stmts (c : CmdSubst) : list Stmt := let (_, _, _, l) := c in l.

Definition ArithmExp_Exp (a : ArithmExp) : Pos := let (p, _, _) := a in p.
Definition ArithmExp_Rparen (a : ArithmExp) : Pos := let (_, p, _) := a in p.
Definition ArithmExp_Words (a : ArithmExp) : list Word := let (_, _, l) := a in l.

Definition CaseStmt_Case (c : CaseStmt) : Pos := let (p, _, _, _) := c in p.
Definition CaseStmt_Esac (c : CaseStmt) : Pos := let (_, p, _, _) := c in p.
Definition CaseStmt_Word (c : CaseStmt) : Word := let (_, _, w, _) := c in w.
Definition CaseStmt_List (c : CaseStmt) : list PatternList := let (_, _, _, l) := c in l.

Definition PatternList_Patterns (p : PatternList) : list Word := let (l, _) := p in l.
Definition PatternList_Stmts (p : PatternList) : list Stmt := let (_, l) := p in l.

(* ================================================================= *)
(** ** The joining helpers *)

(** [func stringerJoin(strs []fmt.Stringer, sep string) string] *)
Definition stringerJoin (strs : list Stringer) (sep : string) : string :=
  let b := Buffer_empty in
  let b := for_range
             (fun i s (b : Buffer) =>
                let b := if Nat.ltb 0 i then Fprint b [str sep] else b in
                Fprint b [val s])
             0 strs b in
  Buffer_String b.

(** [func (s Stmt) newlineAfter() bool]: the loop returns at the first
    redirect whose operator is [HEREDOC] or [DHEREDOC]. *)
Definition Stmt_newlineAfter (s : Stmt) : bool :=
  (fix loop (redirs : list Redirect) : bool :=
     match redirs with
     | [] => false
     | r :: rest =>
         if Token_eqb (Redirect_Op r) HEREDOC || Token_eqb (Redirect_Op r) DHEREDOC
         then true
         else loop rest
     end) (Stmt_Redirs s).

(** The helpers below call the [String] method of the elements they join,
    and the [String] methods call the helpers.  Each helper is first written
    over the method it calls, [String_]; the [String] methods are then
    defined by mutual recursion on the tree, and the helpers of ast.go are
    the instances at those methods. *)
Section Helpers.

Context {A : Type} (String_ : A -> string).

(** [func nodeJoin(ns []Node, sep string) string] *)
Definition nodeJoin_by (ns : list A) (sep : string) : string :=
  let b := Buffer_empty in
  let b := for_range
             (fun i n (b : Buffer) =>
                let b := if Nat.ltb 0 i then Fprint b [str sep] else b in
                Fprint b [val (String_ n)])
             0 ns b in
  Buffer_String b.

(** [func wordJoin(words []Word, sep string) string], inside the
    recursion: [ns[i] = w] stores each word as a [Node] whose [String]
    method is the word's, so the join is taken over the words themselves
    ([wordJoin] below copies them into a slice of nodes, as ast.go does,
    and is shown equal). *)
Definition wordJoin_by (words : list A) (sep : string) : string :=
  nodeJoin_by words sep.

End Helpers.

Section StmtHelpers.

Variable String_ : Stmt -> string.

(** The body of the loop of [stmtJoinWithEnd], on the buffer [b] and the
    flag [newline]. *)
Definition stmtJoinWithEnd_body (i : nat) (s : Stmt) (st : Buffer * bool)
  : Buffer * bool :=
  let '(b, newline) := st in
  let '(b, newline) :=
    if newline then (Fprintln b, false)
    else if Nat.ltb 0 i then (Fprint b [str "; "], newline)
    else (b, newline) in
  let b := Fprint b [val (String_ s)] in
  (b, Stmt_newlineAfter s).

(** [func stmtJoinWithEnd(stmts []Stmt, end bool) string] *)
Definition stmtJoinWithEnd_by (stmts : list Stmt) (end_ : bool) : string :=
  let b := Buffer_empty in
  let newline := false in
  let '(b, newline) := for_range stmtJoinWithEnd_body 0 stmts (b, newline) in
  let b := if newline && end_ then Fprintln b else b in
  Buffer_String b.

(** [func stmtJoin(stmts []Stmt) string] *)
Definition stmtJoin_by (stmts : list Stmt) : string :=
  stmtJoinWithEnd_by stmts true.

(** [func stmtList(stmts []Stmt) string] *)
Definition stmtList_by (stmts : list Stmt) : string :=
  if Nat.eqb (List.length stmts) 0 then "; "
  else
    let s := stmtJoin_by stmts in
    if Nat.ltb 0 (String.length s) && endsWithByte s newline_char
    then " " ++ s
    else " " ++ s ++ "; ".

End StmtHelpers.

(* ================================================================= *)
(** ** The [String] methods *)

(** [func (l Lit) String() string] *)
Definition Lit_String (l : Lit) : string := Lit_Value l.

(** [func (q SglQuoted) String() string] *)
Definition SglQuoted_String (q : SglQuoted) : string :=
  "'" ++ SglQuoted_Value q ++ "'".

(** [func (p ParamExp) String() string] *)
Definition ParamExp_String (p : ParamExp) : string :=
  if ParamExp_Short p then "$" ++ ParamExp_Text p
  else "${" ++ ParamExp_Text p ++ "}".

Definition dquote : string := String "034"%char "".
Definition backquote : string := "`".

Fixpoint Node_String (n : Node) : string :=
  match n with
  | StmtNode s => Stmt_String s
  | AssignNode a => Assign_String a
  | CommandNode c => Command_String c
  | SubshellNode s => Subshell_String s
  | BlockNode b => Block_String b
  | IfStmtNode s => IfStmt_String s
  | WhileStmtNode w => WhileStmt_String w
  | UntilStmtNode u => UntilStmt_String u
  | ForStmtNode f => ForStmt_String f
  | BinaryExprNode b => BinaryExpr_String b
  | FuncDeclNode f => FuncDecl_String f
  | WordNode w => Word_String w
  | LitNode l => Lit_String l
  | SglQuotedNode q => SglQuoted_String q
  | DblQuotedNode q => DblQuoted_String q
  | CmdSubstNode c => CmdSubst_String c
  | ParamExpNode p => ParamExp_String p
  | ArithmExpNode a => ArithmExp_String a
  | CaseStmtNode c => CaseStmt_String c
  end

(** [func (s Stmt) String() string] *)
with Stmt_String (s : Stmt) : string :=
  let strs : list Stringer := [] in
  let strs := if Stmt_Negated s then (strs ++ [Token_String BANG])%list else strs in
  let strs := match Stmt_Node s with
              | Some n => (strs ++ [Node_String n])%list
              | None => strs
              end in
  let strs := for_range (fun _ a strs => (strs ++ [Assign_String a])%list)
                0 (Stmt_Assigns s) strs in
  let strs := for_range (fun _ r strs => (strs ++ [Redirect_String r])%list)
                0 (Stmt_Redirs s) strs in
  let strs := if Stmt_Background s then (strs ++ [Token_String AND])%list else strs in
  stringerJoin strs " "

(** [func (a Assign) String() string] *)
with Assign_String (a : Assign) : string :=
  Sprint [val (Lit_String (Assign_Name a)); str "="; val (Word_String (Assign_Value a))]

(** [func (r Redirect) String() string] *)
with Redirect_String (r : Redirect) : string :=
  Sprintf "%s%s%s"
    [Lit_String (Redirect_N r); Token_String (Redirect_Op r);
     Word_String (Redirect_Word r)]

(** [func (c Command) String() string] *)
with Command_String (c : Command) : string :=
  wordJoin_by Word_String (Command_Args c) " "

(** [func (s Subshell) String() string] *)
with Subshell_String (s : Subshell) : string :=
  if Nat.eqb (List.length (Subshell_Stmts s)) 0
  then "( )"
  else "(" ++ stmtJoin_by Stmt_String (Subshell_Stmts s) ++ ")"

(** [func (b Block) String() string] *)
with Block_String (b : Block) : string :=
  "{" ++ stmtList_by Stmt_String (Block_Stmts b) ++ "}"

(** [func (s IfStmt) String() string] *)
with IfStmt_String (s : IfStmt) : string :=
  let b := Buffer_empty in
  let b := Fprint b [val (Token_String IF);
                     str (stmtList_by Stmt_String (IfStmt_Conds s));
                     val (Token_String THEN);
                     str (stmtList_by Stmt_String (IfStmt_ThenStmts s))] in
  let b := for_range (fun _ elif b => Fprint b [val (Elif_String elif)])
             0 (IfStmt_Elifs s) b in
  let b := if Nat.ltb 0 (List.length (IfStmt_ElseStmts s))
           then Fprint b [val (Token_String ELSE);
                          str (stmtList_by Stmt_String (IfStmt_ElseStmts s))]
           else b in
  let b := Fprint b [val (Token_String FI)] in
  Buffer_String b

(** [func (e Elif) String() string] *)
with Elif_String (e : Elif) : string :=
  Sprint [val (Token_String ELIF);
          str (stmtList_by Stmt_String (Elif_Conds e));
          val (Token_String THEN);
          str (stmtList_by Stmt_String (Elif_ThenStmts e))]

(** [func (w WhileStmt) String() string] *)
with WhileStmt_String (w : WhileStmt) : string :=
  Sprint [val (Token_String WHILE);
          str (stmtList_by Stmt_String (WhileStmt_Conds w));
          val (Token_String DO);
          str (stmtList_by Stmt_String (WhileStmt_DoStmts w));
          val (Token_String DONE)]

(** [func (u UntilStmt) String() string] *)
with UntilStmt_String (u : UntilStmt) : string :=
  Sprint [val (Token_String UNTIL);
          str (stmtList_by Stmt_String (UntilStmt_Conds u));
          val (Token_String DO);
          str (stmtList_by Stmt_String (UntilStmt_DoStmts u));
          val (Token_String DONE)]

(** [func (f ForStmt) String() string] *)
with ForStmt_String (f : ForStmt) : string :=
  let b := Buffer_empty in
  let b := Fprint b [val (Token_String FOR); str " "; val (Lit_String (ForStmt_Name f))] in
  let b := if Nat.ltb 0 (List.length (ForStmt_WordList f))
           then Fprintf b " %s %s"
                  [Token_String IN; wordJoin_by Word_String (ForStmt_WordList f) " "]
           else b in
  let b := Fprint b [str "; "; val (Token_String DO);
                     str (stmtList_by Stmt_String (ForStmt_DoStmts f));
                     val (Token_String DONE)] in
  Buffer_String b

(** [func (b BinaryExpr) String() string] *)
with BinaryExpr_String (b : BinaryExpr) : string :=
  Sprintf "%s %s %s"
    [Stmt_String (BinaryExpr_X b); Token_String (BinaryExpr_Op b);
     Stmt_String (BinaryExpr_Y b)]

(** [func (f FuncDecl) String() string] *)
with FuncDecl_String (f : FuncDecl) : string :=
  if FuncDecl_BashStyle f
  then Sprintf "%s %s() %s"
         [Token_String FUNCTION; Lit_String (FuncDecl_Name f);
          Stmt_String (FuncDecl_Body f)]
  else Sprintf "%s() %s"
         [Lit_String (FuncDecl_Name f); Stmt_String (FuncDecl_Body f)]

(** [func (w Word) String() string] *)
with Word_String (w : Word) : string :=
  nodeJoin_by Node_String (Word_Parts w) ""

(** [func (q DblQuoted) String() string] *)
with DblQuoted_String (q : DblQuoted) : string :=
  dquote ++ nodeJoin_by Node_String (DblQuoted_Parts q) "" ++ dquote

(** [func (c CmdSubst) String() string] *)
with CmdSubst_String (c : CmdSubst) : string :=
  if CmdSubst_Backquotes c
  then backquote ++ stmtJoin_by Stmt_String (CmdSubst_Stmts c) ++ backquote
  else "$(" ++ stmtJoin_by Stmt_String (CmdSubst_Stmts c) ++ ")"

(** [func (a ArithmExp) String() string] *)
with ArithmExp_String (a : ArithmExp) : string :=
  "$((" ++ wordJoin_by Word_String (ArithmExp_Words a) " " ++ "))"

(** [func (c CaseStmt) String() string] *)
with CaseStmt_String (c : CaseStmt) : string :=
  let b := Buffer_empty in
  let b := Fprintf b "%s %s %s"
             [Token_String CASE; Word_String (CaseStmt_Word c); Token_String IN] in
  let b := for_range
             (fun i plist b =>
                let b := if Nat.eqb i 0 then Fprint b [str " "]
                         else Fprint b [str ";; "] in
                Fprint b [val (PatternList_String plist)])
             0 (CaseStmt_List c) b in
  let b := Fprint b [str "; "; val (Token_String ESAC)] in
  Buffer_String b

(** [func (p PatternList) String() string] *)
with PatternList_String (p : PatternList) : string :=
  Sprintf "%s) %s"
    [wordJoin_by Word_String (PatternList_Patterns p) " | ";
     stmtJoin_by Stmt_String (PatternList_Stmts p)].

(** *** The helpers of ast.go, at the [String] methods *)

(** [func nodeJoin(ns []Node, sep string) string] *)
Definition nodeJoin (ns : list Node) (sep : string) : string :=
  nodeJoin_by Node_String ns sep.

(** [func wordJoin(words []Word, sep string) string] *)
Definition wordJoin (words : list Word) (sep : string) : string :=
  let ns := map WordNode words in
  nodeJoin ns sep.

(** [func stmtJoinWithEnd(stmts []Stmt, end bool) string] *)
Definition stmtJoinWithEnd (stmts : list Stmt) (end_ : bool) : string :=
  stmtJoinWithEnd_by Stmt_String stmts end_.

(** [func stmtJoin(stmts []Stmt) string] *)
Definition stmtJoin (stmts : list Stmt) : string :=
  stmtJoinWithEnd stmts true.

(** [func stmtList(stmts []Stmt) string] *)
Definition stmtList (stmts : list Stmt) : string :=
  stmtList_by Stmt_String stmts.

(** [func (f File) String() string { return stmtJoinWithEnd(f.Stmts, false) }] *)
Definition File_String (f : File) : string :=
  stmtJoinWithEnd (File_Stmts f) false.

(* ================================================================= *)
(** ** The [Pos] methods *)

Definition Lit_Pos (l : Lit) : Pos := Lit_ValuePos l.
Definition SglQuoted_Pos (q : SglQuoted) : Pos := SglQuoted_Quote q.
Definition ParamExp_Pos (p : ParamExp) : Pos := ParamExp_Exp p.
Definition Stmt_Pos (s : Stmt) : Pos := Stmt_Position s.
Definition Assign_Pos (a : Assign) : Pos := Lit_Pos (Assign_Name a).
Definition Subshell_Pos (s : Subshell) : Pos := Subshell_Lparen s.
Definition Block_Pos (b : Block) : Pos := Block_Rbrace b.
Definition IfStmt_Pos (s : IfStmt) : Pos := IfStmt_If s.
Definition WhileStmt_Pos (w : WhileStmt) : Pos := WhileStmt_While w.
Definition UntilStmt_Pos (u : UntilStmt) : Pos := UntilStmt_Until u.
Definition ForStmt_Pos (f : ForStmt) : Pos := ForStmt_For f.
Definition BinaryExpr_Pos (b : BinaryExpr) : Pos := Stmt_Pos (BinaryExpr_X b).
Definition FuncDecl_Pos (f : FuncDecl) : Pos := FuncDecl_Position f.
Definition DblQuoted_Pos (q : DblQuoted) : Pos := DblQuoted_Quote q.
Definition CmdSubst_Pos (c : CmdSubst) : Pos := CmdSubst_Left c.
Definition ArithmExp_Pos (a : ArithmExp) : Pos := ArithmExp_Exp a.
Definition CaseStmt_Pos (c : CaseStmt) : Pos := CaseStmt_Case c.

Section FirstPos.

Context {A : Type} (Pos_ : A -> Pos).

(** [func nodeFirstPos(ns []Node) Pos] and [func wordFirstPos(ws []Word) Pos],
    over the [Pos] method of the elements. *)
Definition firstPos_by (ns : list A) : Pos :=
  if Nat.eqb (List.length ns) 0 then defaultPos
  else match ns with
       | n :: _ => Pos_ n
       | [] => defaultPos
       end.

End FirstPos.

Fixpoint Node_Pos (n : Node) : Pos :=
  match n with
  | StmtNode s => Stmt_Pos s
  | AssignNode a => Assign_Pos a
  | CommandNode c => Command_Pos c
  | SubshellNode s => Subshell_Pos s
  | BlockNode b => Block_Pos b
  | IfStmtNode s => IfStmt_Pos s
  | WhileStmtNode w => WhileStmt_Pos w
  | UntilStmtNode u => UntilStmt_Pos u
  | ForStmtNode f => ForStmt_Pos f
  | BinaryExprNode b => BinaryExpr_Pos b
  | FuncDeclNode f => FuncDecl_Pos f
  | WordNode w => Word_Pos w
  | LitNode l => Lit_Pos l
  | SglQuotedNode q => SglQuoted_Pos q
  | DblQuotedNode q => DblQuoted_Pos q
  | CmdSubstNode c => CmdSubst_Pos c
  | ParamExpNode p => ParamExp_Pos p
  | ArithmExpNode a => ArithmExp_Pos a
  | CaseStmtNode c => CaseStmt_Pos c
  end

(** [func (c Command) Pos() Pos { return wordFirstPos(c.Args) }] *)
with Command_Pos (c : Command) : Pos :=
  firstPos_by Word_Pos (Command_Args c)

(** [func (w Word) Pos() Pos { return nodeFirstPos(w.Parts) }] *)
with Word_Pos (w : Word) : Pos :=
  firstPos_by Node_Pos (Word_Parts w).

(** [func nodeFirstPos(ns []Node) Pos] *)
Definition nodeFirstPos (ns : list Node) : Pos := firstPos_by Node_Pos ns.

(** [func wordFirstPos(ws []Word) Pos] *)
Definition wordFirstPos (ws : list Word) : Pos := firstPos_by Word_Pos ws.

(** The values of the struct types of ast.go.  [File], [Redirect], [Elif]
    and [PatternList] have a [String] method and no [Pos] method: they are
    not nodes. *)
Inductive Value : Type :=
| FileValue (f : File)
| RedirectValue (r : Redirect)
| ElifValue (e : Elif)
| PatternListValue (p : PatternList)
| NodeValue (n : Node).

(** The method [String] of a value: every struct type of ast.go has one. *)
Definition Value_String (v : Value) : string :=
  match v with
  | FileValue f => File_String f
  | RedirectValue r => Redirect_String r
  | ElifValue e => Elif_String e
  | PatternListValue p => PatternList_String p
  | NodeValue n => Node_String n
  end.

(** The method [Pos] of a value, [None] where the type declares none. *)
Definition Value_Pos (v : Value) : option Pos :=
  match v with
  | NodeValue n => Some (Node_Pos n)
  | FileValue _ | RedirectValue _ | ElifValue _ | PatternListValue _ => None
  end.

(* ================================================================= *)
(** ** Building trees *)

Definition lit (s : string) : Lit := mkLit defaultPos s.
Definition litWord (s : string) : Word := mkWord [LitNode (lit s)].

(** A simple command as a statement: [Stmt{Node: Command{Args: words}}]. *)
Definition cmdStmt (words : list string) : Stmt :=
  mkStmt (Some (CommandNode (mkCommand (map litWord words))))
         defaultPos false [] [] false.

(** A statement whose inner node is [n], without modifiers. *)
Definition nodeStmt (n : Node) : Stmt :=
  mkStmt (Some n) defaultPos false [] [] false.

(** [cat <<EOF]: a command with a here-document redirect. *)
Definition heredocStmt : Stmt :=
  mkStmt (Some (CommandNode (mkCommand [litWord "cat"])))
         defaultPos false []
         [mkRedirect defaultPos HEREDOC (lit "") (litWord "EOF")] false.

(** [case x in a) case y in b) echo;; c) echo; esac; esac]: a case
    statement with one pattern list, whose statement is a case statement
    with two. *)
Definition innerCase : CaseStmt :=
  mkCaseStmt defaultPos defaultPos (litWord "y")
    [mkPatternList [litWord "b"] [cmdStmt ["echo"]];
     mkPatternList [litWord "c"] [cmdStmt ["echo"]]].

Definition nestedCase : CaseStmt :=
  mkCaseStmt defaultPos defaultPos (litWord "x")
    [mkPatternList [litWord "a"] [nodeStmt (CaseStmtNode innerCase)]].

(** [for i; do for j in a b; do echo; done; done]: a loop without a word
    list, whose body is a loop with one. *)
Definition innerFor : ForStmt :=
  mkForStmt defaultPos defaultPos (lit "j") [litWord "a"; litWord "b"]
    [cmdStmt ["echo"]].

Definition nestedFor : ForStmt :=
  mkForStmt defaultPos defaultPos (lit "i") []
    [nodeStmt (ForStmtNode innerFor)].

(* ================================================================= *)
(** ** Trees without positions *)

(** The same tree with every position field set to the unknown position:
    two trees with the same image differ in positions only. *)
Definition Lit_erasePos (l : Lit) : Lit := mkLit defaultPos (Lit_Value l).

Definition SglQuoted_erasePos (q : SglQuoted) : SglQuoted :=
  mkSglQuoted defaultPos (SglQuoted_Value q).

Definition ParamExp_erasePos (p : ParamExp) : ParamExp :=
  mkParamExp defaultPos (ParamExp_Short p) (ParamExp_Text p).

Fixpoint Node_erasePos (n : Node) : Node :=
  match n with
  | StmtNode s => StmtNode (Stmt_erasePos s)
  | AssignNode a => AssignNode (Assign_erasePos a)
  | CommandNode c => CommandNode (Command_erasePos c)
  | SubshellNode s => SubshellNode (Subshell_erasePos s)
  | BlockNode b => BlockNode (Block_erasePos b)
  | IfStmtNode s => IfStmtNode (IfStmt_erasePos s)
  | WhileStmtNode w => WhileStmtNode (WhileStmt_erasePos w)
  | UntilStmtNode u => UntilStmtNode (UntilStmt_erasePos u)
  | ForStmtNode f => ForStmtNode (ForStmt_erasePos f)
  | BinaryExprNode b => BinaryExprNode (BinaryExpr_erasePos b)
  | FuncDeclNode f => FuncDeclNode (FuncDecl_erasePos f)
  | WordNode w => WordNode (Word_erasePos w)
  | LitNode l => LitNode (Lit_erasePos l)
  | SglQuotedNode q => SglQuotedNode (SglQuoted_erasePos q)
  | DblQuotedNode q => DblQuotedNode (DblQuoted_erasePos q)
  | CmdSubstNode c => CmdSubstNode (CmdSubst_erasePos c)
  | ParamExpNode p => ParamExpNode (ParamExp_erasePos p)
  | ArithmExpNode a => ArithmExpNode (ArithmExp_erasePos a)
  | CaseStmtNode c => CaseStmtNode (CaseStmt_erasePos c)
  end
with Stmt_erasePos (s : Stmt) : Stmt :=
  match s with
  | mkStmt node _ negated assigns redirs background =>
      mkStmt (match node with
              | Some n => Some (Node_erasePos n)
              | None => None
              end)
             defaultPos negated (map Assign_erasePos assigns)
             (map Redirect_erasePos redirs) background
  end
with Assign_erasePos (a : Assign) : Assign :=
  match a with
  | mkAssign name value => mkAssign (Lit_erasePos name) (Word_erasePos value)
  end
with Redirect_erasePos (r : Redirect) : Redirect :=
  match r with
  | mkRedirect _ op n word =>
      mkRedirect defaultPos op (Lit_erasePos n) (Word_erasePos word)
  end
with Command_erasePos (c : Command) : Command :=
  match c with
  | mkCommand args => mkCommand (map Word_erasePos args)
  end
with Subshell_erasePos (s : Subshell) : Subshell :=
  match s with
  | mkSubshell _ _ stmts => mkSubshell defaultPos defaultPos (map Stmt_erasePos stmts)
  end
with Block_erasePos (b : Block) : Block :=
  match b with
  | mkBlock _ _ stmts => mkBlock defaultPos defaultPos (map Stmt_erasePos stmts)
  end
with IfStmt_erasePos (s : IfStmt) : IfStmt :=
  match s with
  | mkIfStmt _ _ conds thenStmts elifs elseStmts =>
      mkIfStmt defaultPos defaultPos (map Stmt_erasePos conds)
               (map Stmt_erasePos thenStmts) (map Elif_erasePos elifs)
               (map Stmt_erasePos elseStmts)
  end
with Elif_erasePos (e : Elif) : Elif :=
  match e with
  | mkElif _ conds thenStmts =>
      mkElif defaultPos (map Stmt_erasePos conds) (map Stmt_erasePos thenStmts)
  end
with WhileStmt_erasePos (w : WhileStmt) : WhileStmt :=
  match w with
  | mkWhileStmt _ _ conds doStmts =>
      mkWhileStmt defaultPos defaultPos (map Stmt_erasePos conds)
                  (map Stmt_erasePos doStmts)
  end
with UntilStmt_erasePos (u : UntilStmt) : UntilStmt :=
  match u with
  | mkUntilStmt _ _ conds doStmts =>
      mkUntilStmt defaultPos defaultPos (map Stmt_erasePos conds)
                  (map Stmt_erasePos doStmts)
  end
with ForStmt_erasePos (f : ForStmt) : ForStmt :=
  match f with
  | mkForStmt _ _ name wordList doStmts =>
      mkForStmt defaultPos defaultPos (Lit_erasePos name)
                (map Word_erasePos wordList) (map Stmt_erasePos doStmts)
  end
with BinaryExpr_erasePos (b : BinaryExpr) : BinaryExpr :=
  match b with
  | mkBinaryExpr _ op x y =>
      mkBinaryExpr defaultPos op (Stmt_erasePos x) (Stmt_erasePos y)
  end
with FuncDecl_erasePos (f : FuncDecl) : FuncDecl :=
  match f with
  | mkFuncDecl _ bashStyle name body =>
      mkFuncDecl defaultPos bashStyle (Lit_erasePos name) (Stmt_erasePos body)
  end
with Word_erasePos (w : Word) : Word :=
  match w with
  | mkWord parts => mkWord (map Node_erasePos parts)
  end
with DblQuoted_erasePos (q : DblQuoted) : DblQuoted :=
  match q with
  | mkDblQuoted _ parts => mkDblQuoted defaultPos (map Node_erasePos parts)
  end
with CmdSubst_erasePos (c : CmdSubst) : CmdSubst :=
  match c with
  | mkCmdSubst _ _ backquotes stmts =>
      mkCmdSubst defaultPos defaultPos backquotes (map Stmt_erasePos stmts)
  end
with ArithmExp_erasePos (a : ArithmExp) : ArithmExp :=
  match a with
  | mkArithmExp _ _ words => mkArithmExp defaultPos defaultPos (map Word_erasePos words)
  end
with CaseStmt_erasePos (c : CaseStmt) : CaseStmt :=
  match c with
  | mkCaseStmt _ _ word list =>
      mkCaseStmt defaultPos defaultPos (Word_erasePos word)
                 (map PatternList_erasePos list)
  end
with PatternList_erasePos (p : PatternList) : PatternList :=
  match p with
  | mkPatternList patterns stmts =>
      mkPatternList (map Word_erasePos patterns) (map Stmt_erasePos stmts)
  end.

Definition File_erasePos (f : File) : File :=
  mkFile (File_Name f) (map Stmt_erasePos (File_Stmts f)).

(* ================================================================= *)
(** ** Vocabulary of the properties *)

(** The statement carries a heredoc-type redirect: one of its redirects has
    the operator [HEREDOC] or [DHEREDOC]. *)
Definition carriesHeredoc (s : Stmt) : Prop :=
  exists r, In r (Stmt_Redirs s) /\
            (Redirect_Op r = HEREDOC \/ Redirect_Op r = DHEREDOC).

(** The text [s] ends with [suffix]. *)
Definition endsWith (suffix s : string) : Prop := exists p, s = p ++ suffix.

(** The texts of a list, one after the other. *)
Definition catAll (l : list string) : string := fold_right append "" l.

(** What the iterations of the loop of [stmtJoinWithEnd] after the first
    write, when the flag is [nl] before them: a separator and the render of
    each statement. *)
Fixpoint stmtJoinTail (nl : bool) (rest : list Stmt) : string :=
  match rest with
  | [] => ""
  | t :: rest' =>
      (if nl then newline else "; ") ++ Stmt_String t
        ++ stmtJoinTail (Stmt_newlineAfter t) rest'
  end.

(** What [stmtJoinWithEnd] writes for the statements [pre] when more
    statements follow them: each render and the separator after it. *)
Definition stmtJoinBefore (pre : list Stmt) : string :=
  catAll (map (fun p => Stmt_String p
                        ++ (if Stmt_newlineAfter p then newline else "; ")) pre).

(** The flag after those iterations. *)
Definition lastNewline (nl : bool) (rest : list Stmt) : bool :=
  fold_left (fun _ t => Stmt_newlineAfter t) rest nl.

(** The renders of the parts of a statement, in the order [Stmt.String]
    collects them. *)
Definition Stmt_parts (s : Stmt) : list string :=
  ((if Stmt_Negated s then [Token_String BANG] else [])
     ++ match Stmt_Node s with Some n => [Node_String n] | None => [] end
     ++ map Assign_String (Stmt_Assigns s)
     ++ map Redirect_String (Stmt_Redirs s)
     ++ (if Stmt_Background s then [Token_String AND] else []))%list.

(** The operator of the redirect is one of the two here-document
    operators. *)
Definition isHeredocOp (r : Redirect) : bool :=
  Token_eqb (Redirect_Op r) HEREDOC || Token_eqb (Redirect_Op r) DHEREDOC.

(** [a && cat <<EOF]: a binary expression whose right operand carries a
    here-document redirect, as a statement without redirects of its own. *)
Definition andHeredocStmt : Stmt :=
  nodeStmt (BinaryExprNode
              (mkBinaryExpr defaultPos (TOKEN "&&") (cmdStmt ["a"]) heredocStmt)).

(* ================================================================= *)
(** * Properties *)

(** ** Strings *)

Lemma append_nil_r (s : string) : s ++ "" = s.
Proof. induction s as [|c s IH]; simpl; [reflexivity | now rewrite IH]. Qed.

Lemma append_assoc (a b c : string) : (a ++ b) ++ c = a ++ (b ++ c).
Proof. induction a as [|x a IH]; simpl; [reflexivity | now rewrite IH]. Qed.

Lemma lastByte_append_byte (p : string) (c : ascii) :
  lastByte (p ++ String c "") = Some c.
Proof.
  induction p as [|x p IH]; simpl; [reflexivity|].
  rewrite IH. destruct (p ++ String c "") eqn:E; [|reflexivity].
  destruct p; discriminate.
Qed.

Lemma lastByte_Some (s : string) (c : ascii) :
  lastByte s = Some c -> exists p, s = p ++ String c "".
Proof.
  induction s as [|x s IH]; simpl; [discriminate|].
  destruct s as [|y s].
  - intros H. injection H as ->. now exists "".
  - intros H. destruct (IH H) as [p Hp]. exists (String x p).
    simpl. now rewrite <- Hp.
Qed.

(** [endsWithByte] decides that the last byte of a string is the given
    one. *)
Lemma endsWithByte_spec (s : string) (c : ascii) :
  endsWithByte s c = true <-> exists p, s = p ++ String c "".
Proof.
  unfold endsWithByte. split.
  - destruct (lastByte s) as [d|] eqn:E; [|discriminate].
    intros H. apply Ascii.eqb_eq in H. subst d. now apply lastByte_Some.
  - intros [p ->]. rewrite lastByte_append_byte. apply Ascii.eqb_refl.
Qed.

Lemma endsWithByte_append (a s : string) (c : ascii) :
  s <> "" -> endsWithByte (a ++ s) c = endsWithByte s c.
Proof.
  intros Hs. unfold endsWithByte.
  assert (lastByte (a ++ s) = lastByte s) as ->; [|reflexivity].
  induction a as [|x a IH]; simpl; [reflexivity|].
  rewrite IH. destruct (a ++ s) eqn:E; [|reflexivity].
  destruct a; simpl in E; [contradiction | discriminate].
Qed.

(** ** The [fmt] functions *)

Lemma Fprint_str (b : Buffer) (s : string) : Fprint b [str s] = b ++ s.
Proof. reflexivity. Qed.

Lemma Fprint_val (b : Buffer) (s : Stringer) : Fprint b [val s] = b ++ s.
Proof. reflexivity. Qed.

(** No space is added next to an operand that is a string. *)
Lemma Fprint_str_val (b : Buffer) (s : string) (t : Stringer) :
  Fprint b [str s; val t] = b ++ s ++ t.
Proof. unfold Fprint. simpl. apply append_assoc. Qed.

Lemma Fprint_val_str (b : Buffer) (s : Stringer) (t : string) :
  Fprint b [val s; str t] = b ++ s ++ t.
Proof. unfold Fprint. simpl. apply append_assoc. Qed.

Lemma Fprint_val_str_val (b : Buffer) (s : Stringer) (t : string) (u : Stringer) :
  Fprint b [val s; str t; val u] = b ++ s ++ t ++ u.
Proof. unfold Fprint. simpl. now rewrite !append_assoc. Qed.

Lemma Fprint_str_val_str_val (b : Buffer) (s : string) (t : Stringer)
      (u : string) (v : Stringer) :
  Fprint b [str s; val t; str u; val v] = b ++ s ++ t ++ u ++ v.
Proof. unfold Fprint. simpl. now rewrite !append_assoc. Qed.

Lemma Fprint_val_str_val_str (b : Buffer) (s : Stringer) (t : string)
      (u : Stringer) (v : string) :
  Fprint b [val s; str t; val u; str v] = b ++ s ++ t ++ u ++ v.
Proof. unfold Fprint. simpl. now rewrite !append_assoc. Qed.

(** Two operands that are not strings are separated by a space. *)
Lemma Fprint_val_val (b : Buffer) (s t : Stringer) :
  Fprint b [val s; val t] = b ++ s ++ " " ++ t.
Proof. unfold Fprint. simpl. now rewrite !append_assoc. Qed.

(** ** The loops that join *)

Lemma for_range_append {A : Type} (body : nat -> A -> Buffer -> Buffer)
      (txt : A -> string) :
  (forall i x b, body (S i) x b = b ++ txt x) ->
  forall l i b, for_range body (S i) l b = b ++ catAll (map txt l).
Proof.
  intros Hbody. induction l as [|x l IH]; intros i b; simpl.
  - now rewrite append_nil_r.
  - rewrite IH, Hbody. apply append_assoc.
Qed.

Lemma concat_cons (sep x : string) (l : list string) :
  String.concat sep (x :: l) = x ++ catAll (map (append sep) l).
Proof.
  revert x. induction l as [|y l IH]; intros x.
  - simpl. now rewrite append_nil_r.
  - change (String.concat sep (x :: y :: l))
      with (x ++ sep ++ String.concat sep (y :: l)).
    rewrite IH. simpl. now rewrite append_assoc.
Qed.

(** [nodeJoin], [wordJoin] and [stringerJoin] put the separator between the
    renders of consecutive elements. *)
Lemma nodeJoin_by_concat {A : Type} (String_ : A -> string)
      (ns : list A) (sep : string) :
  nodeJoin_by String_ ns sep = String.concat sep (map String_ ns).
Proof.
  unfold nodeJoin_by, Buffer_String, Buffer_empty.
  destruct ns as [|n ns]; [reflexivity|].
  simpl for_range.
  rewrite (for_range_append _ (fun n => sep ++ String_ n)).
  - simpl map. rewrite concat_cons. rewrite map_map. reflexivity.
  - intros i x b. simpl. apply append_assoc.
Qed.

Lemma stringerJoin_concat (strs : list Stringer) (sep : string) :
  stringerJoin strs sep = String.concat sep strs.
Proof.
  change (stringerJoin strs sep) with (nodeJoin_by (fun s : string => s) strs sep).
  rewrite nodeJoin_by_concat. now rewrite map_id.
Qed.

Lemma wordJoin_by_eq (words : list Word) (sep : string) :
  wordJoin_by Word_String words sep = wordJoin words sep.
Proof.
  unfold wordJoin, nodeJoin, wordJoin_by.
  rewrite !nodeJoin_by_concat, map_map. reflexivity.
Qed.

Lemma for_range_snoc {A : Type} (f : A -> string) (l : list A) :
  forall i (acc : list string),
    for_range (fun (_ : nat) x acc => (acc ++ [f x])%list) i l acc
    = (acc ++ map f l)%list.
Proof.
  induction l as [|x l IH]; intros i acc; simpl.
  - now rewrite app_nil_r.
  - rewrite IH, <- app_assoc. reflexivity.
Qed.

(** ** The statement-join *)

Lemma stmtJoinWithEnd_loop (rest : list Stmt) :
  forall i b nl,
    for_range (stmtJoinWithEnd_body Stmt_String) (S i) rest (b, nl)
    = (b ++ stmtJoinTail nl rest, lastNewline nl rest).
Proof.
  induction rest as [|t rest IH]; intros i b nl; simpl.
  - now rewrite append_nil_r.
  - destruct nl; simpl; rewrite IH; unfold Fprintln;
      rewrite ?Fprint_str, ?Fprint_val, !append_assoc; reflexivity.
Qed.

(** The text of a non-empty statement sequence: the first render, what the
    later iterations write, and the final newline of the terminating form. *)
Lemma stmtJoinWithEnd_cons (s : Stmt) (rest : list Stmt) (end_ : bool) :
  stmtJoinWithEnd (s :: rest) end_
  = Stmt_String s ++ stmtJoinTail (Stmt_newlineAfter s) rest
      ++ (if lastNewline (Stmt_newlineAfter s) rest && end_ then newline else "").
Proof.
  unfold stmtJoinWithEnd, stmtJoinWithEnd_by, Buffer_String, Buffer_empty.
  simpl for_range. rewrite stmtJoinWithEnd_loop.
  unfold Fprintln, Fprint; simpl.
  destruct (lastNewline (Stmt_newlineAfter s) rest && end_).
  - now rewrite append_assoc.
  - now rewrite !append_nil_r.
Qed.

Lemma stmtJoinWithEnd_nil (end_ : bool) : stmtJoinWithEnd [] end_ = "".
Proof. reflexivity. Qed.

Lemma stmtJoinWithEnd_one (s : Stmt) (end_ : bool) :
  stmtJoinWithEnd [s] end_
  = Stmt_String s ++ (if Stmt_newlineAfter s && end_ then newline else "").
Proof. rewrite stmtJoinWithEnd_cons. reflexivity. Qed.

Lemma stmtJoinWithEnd_two (s t : Stmt) (rest : list Stmt) (end_ : bool) :
  stmtJoinWithEnd (s :: t :: rest) end_
  = Stmt_String s ++ (if Stmt_newlineAfter s then newline else "; ")
      ++ stmtJoinWithEnd (t :: rest) end_.
Proof.
  rewrite !stmtJoinWithEnd_cons. simpl stmtJoinTail.
  unfold lastNewline. simpl fold_left.
  now rewrite !append_assoc.
Qed.

Lemma Token_eqb_eq (a b : Token) : Token_eqb a b = true <-> a = b.
Proof.
  unfold Token_eqb. destruct (Token_eq_dec a b); split; congruence.
Qed.

(** [newlineAfter] decides that the statement carries a heredoc-type
    redirect. *)
Lemma Stmt_newlineAfter_spec (s : Stmt) :
  Stmt_newlineAfter s = true <-> carriesHeredoc s.
Proof.
  unfold Stmt_newlineAfter, carriesHeredoc.
  induction (Stmt_Redirs s) as [|r rs IH].
  - split; [discriminate | intros (r & [] & _)].
  - destruct (Token_eqb (Redirect_Op r) HEREDOC || Token_eqb (Redirect_Op r) DHEREDOC)
      eqn:E.
    + split; [intros _ | reflexivity].
      exists r. split; [now left|].
      apply orb_true_iff in E. now rewrite !Token_eqb_eq in E.
    + apply orb_false_iff in E. destruct E as [E1 E2].
      rewrite IH. split.
      * intros (r' & Hin & Hop). exists r'. split; [now right | assumption].
      * intros (r' & [<- | Hin] & Hop); [|now exists r'].
        destruct Hop as [Hop | Hop]; apply Token_eqb_eq in Hop; congruence.
Qed.

Lemma stmtJoinWithEnd_more (p : Stmt) (l : list Stmt) (end_ : bool) :
  l <> [] ->
  stmtJoinWithEnd (p :: l) end_
  = Stmt_String p ++ (if Stmt_newlineAfter p then newline else "; ")
      ++ stmtJoinWithEnd l end_.
Proof.
  destruct l as [|t rest]; [contradiction|]. intros _. apply stmtJoinWithEnd_two.
Qed.

(** The text up to the separator after a statement is the text of the
    statements before it, with their separators, and its render. *)
Lemma stmtJoinWithEnd_split (pre l : list Stmt) (end_ : bool) :
  l <> [] ->
  stmtJoinWithEnd (pre ++ l) end_ = stmtJoinBefore pre ++ stmtJoinWithEnd l end_.
Proof.
  intros Hl. induction pre as [|p pre IH]; [reflexivity|].
  change ((p :: pre) ++ l)%list with (p :: (pre ++ l))%list.
  rewrite stmtJoinWithEnd_more.
  - rewrite IH. unfold stmtJoinBefore. simpl. now rewrite !append_assoc.
  - destruct pre; [assumption | discriminate].
Qed.

Lemma stmtJoinWithEnd_last (pre : list Stmt) (s : Stmt) (end_ : bool) :
  stmtJoinWithEnd (pre ++ [s]) end_
  = stmtJoinBefore pre ++ Stmt_String s
      ++ (if Stmt_newlineAfter s && end_ then newline else "").
Proof.
  rewrite stmtJoinWithEnd_split by discriminate.
  now rewrite stmtJoinWithEnd_one.
Qed.

(** ** The statements of the specification *)

(** C1. In the text of the statement-join, the separator after a statement
    that is not the last one is a newline if the statement carries a redirect
    whose operator is HEREDOC or DHEREDOC, and "; " otherwise: the text of
    [pre ++ s :: t :: post] is the text written up to the render of [s], that
    separator, and the text of [t :: post], which starts with the render of
    [t].  So a newline, and not "; ", immediately follows the render of a
    statement with a heredoc-type redirect that is not at the final
    position. *)
Theorem stmtJoin_separator :
  forall (pre : list Stmt) (s t : Stmt) (post : list Stmt) (end_ : bool),
    let upTo := stmtJoinBefore pre ++ Stmt_String s in
    let text := stmtJoinWithEnd (pre ++ s :: t :: post) end_ in
    stmtJoinWithEnd (pre ++ [s]) false = upTo /\
    (exists after, stmtJoinWithEnd (t :: post) end_ = Stmt_String t ++ after) /\
    text = upTo ++ (if Stmt_newlineAfter s then newline else "; ")
             ++ stmtJoinWithEnd (t :: post) end_ /\
    (Stmt_newlineAfter s = true <-> carriesHeredoc s) /\
    (carriesHeredoc s ->
     text = upTo ++ newline ++ stmtJoinWithEnd (t :: post) end_ /\
     hasPrefix "; " (newline ++ stmtJoinWithEnd (t :: post) end_) = false) /\
    (~ carriesHeredoc s ->
     text = upTo ++ "; " ++ stmtJoinWithEnd (t :: post) end_).
Proof.
  intros pre s t post end_ upTo text.
  assert (Htext : text = upTo ++ (if Stmt_newlineAfter s then newline else "; ")
                           ++ stmtJoinWithEnd (t :: post) end_).
  { unfold text, upTo. rewrite stmtJoinWithEnd_split by discriminate.
    rewrite stmtJoinWithEnd_two. now rewrite !append_assoc. }
  split; [|split; [|split; [|split; [|split]]]].
  - unfold upTo. rewrite stmtJoinWithEnd_last.
    rewrite andb_false_r. now rewrite append_nil_r.
  - rewrite stmtJoinWithEnd_cons. eauto.
  - exact Htext.
  - apply Stmt_newlineAfter_spec.
  - intros H. apply Stmt_newlineAfter_spec in H. rewrite H in Htext.
    split; [exact Htext | reflexivity].
  - intros H. destruct (Stmt_newlineAfter s) eqn:E; [|exact Htext].
    apply Stmt_newlineAfter_spec in E. contradiction.
Qed.

(** A here-document statement followed by another one, in a File. *)
Lemma stmtJoin_separator_witness :
  carriesHeredoc heredocStmt /\
  stmtJoinWithEnd ([] ++ heredocStmt :: cmdStmt ["echo"; "hi"] :: []) false
  = (stmtJoinBefore [] ++ Stmt_String heredocStmt) ++ newline
      ++ stmtJoinWithEnd (cmdStmt ["echo"; "hi"] :: []) false.
Proof.
  assert (H : carriesHeredoc heredocStmt).
  { eexists. split; [left; reflexivity | left; reflexivity]. }
  split; [exact H|].
  destruct (stmtJoin_separator [] heredocStmt (cmdStmt ["echo"; "hi"]) [] false)
    as (_ & _ & _ & _ & Hh & _).
  exact (proj1 (Hh H)).
Defined.

Lemma endsWith_newline_iff (s : string) :
  endsWith newline s <-> endsWithByte s newline_char = true.
Proof. symmetry. apply endsWithByte_spec. Qed.

(** C2, as stated, fails: the File whose only statement is [cat <<EOF] has a
    last statement with a here-document redirect, and its text, "cat <<EOF",
    does not end in a newline. *)
Lemma File_heredoc_last_no_newline :
  carriesHeredoc heredocStmt /\
  File_String (mkFile "script.sh" [heredocStmt]) = "cat <<EOF" /\
  ~ endsWith newline (File_String (mkFile "script.sh" [heredocStmt])).
Proof.
  split; [|split].
  - exists (mkRedirect defaultPos HEREDOC (lit "") (litWord "EOF")).
    split; [left; reflexivity | left; reflexivity].
  - reflexivity.
  - rewrite endsWith_newline_iff. discriminate.
Qed.

(** C2, amended.  A File is rendered by the non-terminating form of the
    statement-join ([end] is false).  A File without statements renders to
    the empty text.  The text of a File with statements is the text written
    for the statements before the last one, each render followed by its
    separator, and then the render of the last statement: nothing is appended
    after it, also when that statement carries a heredoc-type redirect.  The
    terminating form [stmtJoin] of the same statements is the File's text
    followed by one newline exactly when the last statement carries such a
    redirect.  The File's text ends in a newline if and only if the render of
    its last statement ends in a newline, or that render is empty and the
    text written before it ends in a newline. *)
Theorem File_String_no_terminator :
  forall (name : string) (pre : list Stmt) (s : Stmt),
    let f := mkFile name (pre ++ [s]) in
    File_String (mkFile name []) = "" /\
    File_String f = stmtJoinWithEnd (File_Stmts f) false /\
    File_String f = stmtJoinBefore pre ++ Stmt_String s /\
    stmtJoin (File_Stmts f)
    = File_String f ++ (if Stmt_newlineAfter s then newline else "") /\
    (Stmt_newlineAfter s = true <-> carriesHeredoc s) /\
    (endsWith newline (File_String f) <->
     endsWith newline (Stmt_String s) \/
     (Stmt_String s = "" /\ endsWith newline (stmtJoinBefore pre))) /\
    (Stmt_String s <> "" ->
     (endsWith newline (File_String f) <-> endsWith newline (Stmt_String s))).
Proof.
  intros name pre s f.
  assert (Hf : File_String f = stmtJoinBefore pre ++ Stmt_String s).
  { unfold File_String, f. simpl File_Stmts. rewrite stmtJoinWithEnd_last.
    now rewrite andb_false_r, append_nil_r. }
  assert (Hne : Stmt_String s <> "" ->
                (endsWith newline (File_String f)
                 <-> endsWith newline (Stmt_String s))).
  { intros Hs. rewrite Hf, !endsWith_newline_iff.
    now rewrite endsWithByte_append. }
  split; [reflexivity|]. split; [reflexivity|]. split; [exact Hf|].
  split; [|split; [|split; [|exact Hne]]].
  - rewrite Hf. unfold stmtJoin, f. simpl File_Stmts.
    rewrite stmtJoinWithEnd_last, andb_true_r. now rewrite append_assoc.
  - apply Stmt_newlineAfter_spec.
  - destruct (string_dec (Stmt_String s) "") as [He | Hs].
    + rewrite Hf, He, append_nil_r. split.
      * intros H. right. now split.
      * intros [H | [_ H]]; [|exact H].
        apply endsWith_newline_iff in H. discriminate.
    + rewrite (Hne Hs). split; [now left|].
      intros [H | [He _]]; [exact H | contradiction].
Qed.

Lemma File_String_no_terminator_witness :
  Stmt_String heredocStmt <> "" /\
  (endsWith newline (File_String (mkFile "script.sh" ([] ++ [heredocStmt])))
   <-> endsWith newline (Stmt_String heredocStmt)).
Proof.
  assert (H : Stmt_String heredocStmt <> "") by discriminate.
  split; [exact H|].
  destruct (File_String_no_terminator "script.sh" [] heredocStmt)
    as (_ & _ & _ & _ & _ & _ & Hends).
  exact (Hends H).
Defined.

(** A last statement without any part renders to the empty text: the File
    then ends with the newline written before it. *)
Example File_heredoc_then_empty_statement :
  File_String
    (mkFile "script.sh" [heredocStmt; mkStmt None defaultPos false [] [] false])
  = "cat <<EOF" ++ newline.
Proof. reflexivity. Qed.

Lemma endsWithByte_nonempty (s : string) (c : ascii) :
  endsWithByte s c = true -> Nat.ltb 0 (String.length s) = true.
Proof. destruct s; [discriminate | reflexivity]. Qed.

(** C3. The inline statement list of an empty sequence is "; "; that of a
    non-empty sequence is a space, the statement-join, and a trailing "; "
    exactly when the text of the join does not end in a newline.  A Block is
    "{", the inline list of its statements, "}": without statements it is
    "{; }". *)
Theorem stmtList_render :
  stmtList [] = "; " /\
  (forall (s : Stmt) (rest : list Stmt),
      let join := stmtJoin (s :: rest) in
      stmtList (s :: rest)
      = " " ++ join ++ (if endsWithByte join newline_char then "" else "; ") /\
      (endsWithByte join newline_char = true <-> endsWith newline join)) /\
  (forall b : Block, Block_String b = "{" ++ stmtList (Block_Stmts b) ++ "}") /\
  (forall lbrace rbrace : Pos, Block_String (mkBlock lbrace rbrace []) = "{; }").
Proof.
  split; [reflexivity|]. split; [|split].
  - intros s rest join. split.
    + unfold stmtList, stmtList_by. simpl Nat.eqb. cbv iota.
      change (stmtJoin_by Stmt_String (s :: rest)) with join.
      destruct (endsWithByte join newline_char) eqn:E.
      * rewrite (endsWithByte_nonempty _ _ E). simpl. now rewrite append_nil_r.
      * rewrite andb_false_r. reflexivity.
    + symmetry. apply endsWith_newline_iff.
  - intros b. destruct b. reflexivity.
  - reflexivity.
Qed.

(** C4. A Subshell without statements renders to the three characters
    "( )"; one with statements renders to "(" followed by the statement-join
    of its statements followed by ")". *)
Theorem Subshell_render :
  forall (lparen rparen : Pos),
    Subshell_String (mkSubshell lparen rparen []) = "( )" /\
    String.length (Subshell_String (mkSubshell lparen rparen [])) = 3 /\
    (forall (s : Stmt) (rest : list Stmt),
        Subshell_String (mkSubshell lparen rparen (s :: rest))
        = "(" ++ stmtJoin (s :: rest) ++ ")").
Proof.
  intros lparen rparen. split; [reflexivity|]. split; [reflexivity|].
  intros s rest. reflexivity.
Qed.

(** C5. The text of a statement is, in this order, the negation marker if
    it is negated, the render of the inner node if there is one, the render
    of each assignment, the render of each redirect, and the background
    marker if it is backgrounded, with a single space between consecutive
    parts and nothing for the absent ones.  The negated, backgrounded command
    [echo hi] renders to "! echo hi &". *)
Theorem Stmt_String_parts :
  forall s : Stmt,
    Stmt_String s
    = String.concat " "
        ((if Stmt_Negated s then [Token_String BANG] else [])
           ++ match Stmt_Node s with Some n => [Node_String n] | None => [] end
           ++ map Assign_String (Stmt_Assigns s)
           ++ map Redirect_String (Stmt_Redirs s)
           ++ (if Stmt_Background s then [Token_String AND] else []))%list /\
    Token_String BANG = "!" /\
    Token_String AND = "&" /\
    Stmt_String
      (mkStmt (Some (CommandNode (mkCommand [litWord "echo"; litWord "hi"])))
              defaultPos true [] [] true)
    = "! echo hi &".
Proof.
  intros s. split; [|repeat split].
  destruct s as [node pos negated assigns redirs background].
  cbn [Stmt_Negated Stmt_Node Stmt_Assigns Stmt_Redirs Stmt_Background].
  match goal with
  | |- ?lhs = _ =>
      change lhs with
        (stringerJoin
           (let strs : list Stringer := [] in
            let strs := if negated then (strs ++ [Token_String BANG])%list else strs in
            let strs := match node with
                        | Some n => (strs ++ [Node_String n])%list
                        | None => strs
                        end in
            let strs := for_range (fun _ a strs => (strs ++ [Assign_String a])%list)
                          0 assigns strs in
            let strs := for_range (fun _ r strs => (strs ++ [Redirect_String r])%list)
                          0 redirs strs in
            if background then (strs ++ [Token_String AND])%list else strs)
           " ")
  end.
  rewrite stringerJoin_concat. f_equal. cbv zeta.
  rewrite !for_range_snoc.
  destruct negated, node, background; simpl;
    rewrite <- ?app_assoc, ?app_nil_r; reflexivity.
Qed.

(** C10. A CmdSubst without statements renders to "$()", and to two
    backquotes when the Backquotes flag is set: nothing is written between
    the delimiters, and no space either, unlike the empty Subshell. *)
Theorem CmdSubst_empty :
  forall (left right : Pos),
    CmdSubst_String (mkCmdSubst left right false []) = "$()" /\
    CmdSubst_String (mkCmdSubst left right true []) = "``" /\
    stmtJoin [] = "" /\
    (forall backquotes : bool,
        CmdSubst_String (mkCmdSubst left right backquotes [])
        = (if backquotes then "`" else "$(") ++ (if backquotes then "`" else ")")) /\
    Subshell_String (mkSubshell left right []) = "( )".
Proof.
  intros left right. repeat split. intros []; reflexivity.
Qed.

(** ** Occurrences of a substring *)

Lemma hasPrefix_spec (p s : string) :
  hasPrefix p s = true <-> exists b, s = p ++ b.
Proof.
  revert s. induction p as [|c p IH]; intros s; simpl.
  - split; [intros _; now exists s | reflexivity].
  - destruct s as [|d s].
    + split; [discriminate | intros [b Hb]; discriminate].
    + rewrite andb_true_iff, Ascii.eqb_eq, IH. split.
      * intros [-> [b ->]]. now exists b.
      * intros [b Hb]. injection Hb as -> ->. split; [reflexivity | now exists b].
Qed.

Lemma hasPrefix_cons (a b : ascii) (p s : string) :
  hasPrefix (String a p) (String b s) = Ascii.eqb a b && hasPrefix p s.
Proof. reflexivity. Qed.

Lemma hasPrefix_append_long (p a b : string) :
  String.length p <= String.length a ->
  hasPrefix p (a ++ b) = hasPrefix p a.
Proof.
  revert a. induction p as [|c p IH]; intros a Hlen; [reflexivity|].
  destruct a as [|d a]; simpl in *; [lia|].
  rewrite IH by lia. reflexivity.
Qed.

Lemma hasPrefix_short (p a : string) :
  String.length a < String.length p -> hasPrefix p a = false.
Proof.
  revert a. induction p as [|c p IH]; intros a Hlen; simpl in *; [lia|].
  destruct a as [|d a]; [reflexivity|]. simpl in Hlen.
  rewrite IH by lia. apply andb_false_r.
Qed.

(** Occurrences add up over a concatenation when no occurrence starts in the
    first text and ends in the second. *)
Lemma occurrences_append (p a b : string) :
  p <> "" ->
  (forall t, t <> "" -> String.length t < String.length p ->
             hasPrefix p (t ++ b) = false) ->
  occurrences p (a ++ b) = occurrences p a + occurrences p b.
Proof.
  intros Hp Hcross. induction a as [|c a IH].
  - simpl. destruct p; [contradiction | reflexivity].
  - change (occurrences p (String c a ++ b))
      with ((if hasPrefix p (String c a ++ b) then 1 else 0)
            + occurrences p (a ++ b)).
    change (occurrences p (String c a))
      with ((if hasPrefix p (String c a) then 1 else 0) + occurrences p a).
    rewrite IH.
    assert (hasPrefix p (String c a ++ b) = hasPrefix p (String c a)) as ->.
    { destruct (Nat.le_gt_cases (String.length p) (String.length (String c a)))
        as [Hle | Hgt].
      - now apply hasPrefix_append_long.
      - rewrite Hcross by (assumption || discriminate).
        symmetry. now apply hasPrefix_short. }
    lia.
Qed.

Lemma occurrences_here (p b : string) :
  p <> "" -> 0 < occurrences p (p ++ b).
Proof.
  intros Hp. destruct p as [|c p]; [contradiction|].
  change (occurrences (String c p) (String c p ++ b))
    with ((if hasPrefix (String c p) (String c p ++ b) then 1 else 0)
          + occurrences (String c p) (p ++ b)).
  assert (hasPrefix (String c p) (String c p ++ b) = true) as ->.
  { apply hasPrefix_spec. now exists b. }
  lia.
Qed.

Lemma occurrences_skip (p a s : string) :
  occurrences p s <= occurrences p (a ++ s).
Proof.
  induction a as [|c a IH]; [reflexivity|].
  change (occurrences p (String c a ++ s))
    with ((if hasPrefix p (String c (a ++ s)) then 1 else 0)
          + occurrences p (a ++ s)).
  lia.
Qed.

(** [contains p s] decides that [p] is a substring of [s]. *)
Lemma contains_spec (p s : string) :
  p <> "" ->
  contains p s = true <-> exists a b, s = a ++ p ++ b.
Proof.
  intros Hp. unfold contains. rewrite negb_true_iff, Nat.eqb_neq. split.
  - induction s as [|c s IH]; simpl.
    + destruct p; [contradiction | simpl; lia].
    + destruct (hasPrefix p (String c s)) eqn:E.
      * intros _. apply hasPrefix_spec in E. destruct E as [b Hb].
        exists "", b. exact Hb.
      * intros H. destruct IH as (a & b & Hab); [exact H|].
        exists (String c a), b. simpl. now rewrite Hab.
  - intros (a & b & ->).
    pose proof (occurrences_here p b Hp).
    pose proof (occurrences_skip p a (p ++ b)). lia.
Qed.

Lemma contains_false (p s : string) :
  contains p s = false <-> occurrences p s = 0.
Proof. unfold contains. now rewrite negb_false_iff, Nat.eqb_eq. Qed.

(** ** Case statements *)

Lemma CaseStmt_String_eq (case_ esac : Pos) (w : Word) (l : list PatternList) :
  CaseStmt_String (mkCaseStmt case_ esac w l)
  = "case " ++ Word_String w ++ " in"
      ++ match l with
         | [] => ""
         | _ :: _ => " " ++ String.concat ";; " (map PatternList_String l)
         end
      ++ "; esac".
Proof.
  change (CaseStmt_String (mkCaseStmt case_ esac w l))
    with (Buffer_String
            (Fprint
               (for_range
                  (fun i plist b =>
                     Fprint (if Nat.eqb i 0 then Fprint b [str " "]
                             else Fprint b [str ";; "])
                            [val (PatternList_String plist)])
                  0 l
                  (Fprintf Buffer_empty "%s %s %s"
                     [Token_String CASE; Word_String w; Token_String IN]))
               [str "; "; val (Token_String ESAC)])).
  unfold Buffer_String, Buffer_empty, Fprintf.
  destruct l as [|p ps].
  - simpl for_range. rewrite Fprint_str_val. simpl.
    now rewrite !append_assoc.
  - simpl for_range.
    rewrite (for_range_append _ (fun q => ";; " ++ PatternList_String q))
      by (intros i x b; simpl; apply append_assoc).
    rewrite Fprint_str_val, !Fprint_str, !Fprint_val.
    simpl map. rewrite concat_cons, map_map.
    simpl. rewrite !append_assoc. simpl. reflexivity.
Qed.

(** Closes the side condition of [occurrences_append] for a literal pattern
    and a second text that starts with literal characters. *)
Ltac no_crossing :=
  let t := fresh "t" in
  let Ht := fresh "Ht" in
  let Hlen := fresh "Hlen" in
  intros t Ht Hlen;
  destruct t as [|? [|? [|? [|? t]]]];
  [ now contradiction Ht | .. ];
  simpl in Hlen; try lia;
  simpl; rewrite ?andb_false_r; reflexivity.

Lemma concat_more (sep x : string) (l : list string) :
  l <> [] -> String.concat sep (x :: l) = x ++ sep ++ String.concat sep l.
Proof. destruct l; [contradiction | reflexivity]. Qed.

Lemma occurrences_before_sep (a r : string) :
  occurrences ";; " (a ++ ";; " ++ r)
  = occurrences ";; " a + 1 + occurrences ";; " r.
Proof.
  rewrite occurrences_append; [|discriminate|].
  - simpl. lia.
  - no_crossing.
Qed.

(** The occurrences of ";; " in texts joined by ";; " and followed by [r]:
    one for each separator, those inside the joined texts, and those of the
    last text followed by [r]. *)
Lemma occurrences_sep_concat (xs : list string) (y r : string) :
  occurrences ";; " (String.concat ";; " (xs ++ [y]) ++ r)
  = List.length xs + list_sum (map (occurrences ";; ") xs)
    + occurrences ";; " (y ++ r).
Proof.
  induction xs as [|x xs IH]; [reflexivity|].
  change ((x :: xs) ++ [y])%list with (x :: (xs ++ [y]))%list.
  rewrite concat_more by (destruct xs; discriminate).
  rewrite !append_assoc, occurrences_before_sep, IH.
  simpl. lia.
Qed.

Lemma occurrences_before_esac (a : string) :
  occurrences ";; " (a ++ "; esac") = occurrences ";; " (a ++ "; ").
Proof.
  change (a ++ "; esac") with (a ++ "; " ++ "esac").
  rewrite <- append_assoc, occurrences_append; [|discriminate|].
  - simpl. lia.
  - no_crossing.
Qed.

Lemma occurrences_case_head (w r : string) :
  occurrences ";; " ("case " ++ w ++ " in " ++ r)
  = occurrences ";; " (w ++ " ") + occurrences ";; " r.
Proof.
  change (occurrences ";; " ("case " ++ w ++ " in " ++ r))
    with (occurrences ";; " (w ++ " " ++ "in " ++ r)).
  rewrite <- append_assoc, occurrences_append; [|discriminate|].
  - reflexivity.
  - no_crossing.
Qed.

(** A text without ';' has no occurrence of ";; ", also across its end. *)
Lemma occurrences_semicolon_free (s r : string) :
  contains ";" s = false ->
  occurrences ";; " (s ++ r) = occurrences ";; " r.
Proof.
  rewrite contains_false. induction s as [|c s IH]; [reflexivity|].
  change (occurrences ";" (String c s))
    with ((if hasPrefix ";" (String c s) then 1 else 0) + occurrences ";" s).
  change (occurrences ";; " (String c s ++ r))
    with ((if hasPrefix ";; " (String c (s ++ r)) then 1 else 0)
          + occurrences ";; " (s ++ r)).
  rewrite !hasPrefix_cons. destruct (Ascii.eqb ";" c); simpl; [lia|].
  intros H. apply IH. exact H.
Qed.

(** C6, as stated, fails: [nestedCase] has one pattern list and its text,
    "case x in a) case y in b) echo;; c) echo; esac; esac", has one
    occurrence of ";; ", that of the case statement inside it, and not
    none. *)
Lemma CaseStmt_nested_occurrences :
  List.length (CaseStmt_List nestedCase) = 1 /\
  CaseStmt_String nestedCase
  = "case x in a) case y in b) echo;; c) echo; esac; esac" /\
  occurrences ";; " (CaseStmt_String nestedCase) = 1 /\
  occurrences ";; " (CaseStmt_String nestedCase)
  <> List.length (CaseStmt_List nestedCase) - 1.
Proof. repeat split. discriminate. Qed.

(** C6, amended.  The text of a CaseStmt with N >= 1 pattern lists is
    "case ", the render of its word, " in ", the renders of the pattern lists
    with ";; " between consecutive ones, and "; esac": it ends with "; esac".
    The occurrences of ";; " in it are the N-1 separators and those inside
    what the word and the pattern lists render to (the word followed by its
    space, the last pattern list followed by "; "): at least N-1, and
    exactly N-1 when those renders contain no ';'. *)
Theorem CaseStmt_render :
  forall (case_ esac : Pos) (w : Word) (ps : list PatternList) (p : PatternList),
    let c := mkCaseStmt case_ esac w (ps ++ [p]) in
    let N := List.length (CaseStmt_List c) in
    CaseStmt_String c
    = "case " ++ Word_String w ++ " in "
        ++ String.concat ";; " (map PatternList_String (ps ++ [p]))
        ++ "; esac" /\
    endsWith "; esac" (CaseStmt_String c) /\
    occurrences ";; " (CaseStmt_String c)
    = (N - 1)
      + occurrences ";; " (Word_String w ++ " ")
      + list_sum (map (fun q => occurrences ";; " (PatternList_String q)) ps)
      + occurrences ";; " (PatternList_String p ++ "; ") /\
    N - 1 <= occurrences ";; " (CaseStmt_String c) /\
    (contains ";" (Word_String w) = false ->
     (forall q, In q (ps ++ [p]) -> contains ";" (PatternList_String q) = false) ->
     occurrences ";; " (CaseStmt_String c) = N - 1).
Proof.
  intros case_ esac w ps p c N.
  assert (Htext : CaseStmt_String c
                  = "case " ++ Word_String w ++ " in "
                      ++ String.concat ";; " (map PatternList_String (ps ++ [p]))
                      ++ "; esac").
  { unfold c. rewrite CaseStmt_String_eq.
    destruct (ps ++ [p])%list eqn:E; [destruct ps; discriminate|].
    reflexivity. }
  assert (HN : N - 1 = List.length ps).
  { unfold N, c. simpl. rewrite length_app. simpl. lia. }
  assert (Hocc : occurrences ";; " (CaseStmt_String c)
                 = (N - 1)
                   + occurrences ";; " (Word_String w ++ " ")
                   + list_sum (map (fun q => occurrences ";; " (PatternList_String q)) ps)
                   + occurrences ";; " (PatternList_String p ++ "; ")).
  { rewrite Htext, occurrences_case_head, map_app. simpl map.
    rewrite occurrences_sep_concat, occurrences_before_esac.
    rewrite length_map, map_map, HN. lia. }
  split; [exact Htext|]. split; [|split; [exact Hocc|split]].
  - rewrite Htext. exists ("case " ++ Word_String w ++ " in "
                           ++ String.concat ";; " (map PatternList_String (ps ++ [p]))).
    now rewrite !append_assoc.
  - rewrite Hocc. lia.
  - intros Hw Hps. rewrite Hocc.
    rewrite (occurrences_semicolon_free _ " " Hw).
    rewrite (occurrences_semicolon_free _ "; ")
      by (apply Hps, in_or_app; right; now left).
    assert (list_sum (map (fun q => occurrences ";; " (PatternList_String q)) ps) = 0)
      as ->.
    { assert (Hin : forall q, In q ps -> contains ";" (PatternList_String q) = false)
        by (intros q Hq; apply Hps, in_or_app; now left).
      clear - Hin. induction ps as [|q ps IH]; [reflexivity|]. simpl.
      rewrite IH by (intros; apply Hin; now right).
      pose proof (occurrences_semicolon_free (PatternList_String q) ""
                    (Hin q (or_introl eq_refl))) as H.
      rewrite append_nil_r in H. rewrite H. reflexivity. }
    simpl. lia.
Qed.

Lemma CaseStmt_render_witness :
  occurrences ";; "
    (CaseStmt_String
       (mkCaseStmt defaultPos defaultPos (litWord "y")
          ([mkPatternList [litWord "b"] [cmdStmt ["echo"]]]
             ++ [mkPatternList [litWord "c"] [cmdStmt ["echo"]]])))
  = 2 - 1.
Proof.
  refine (proj2 (proj2 (proj2 (proj2
            (CaseStmt_render defaultPos defaultPos (litWord "y")
               [mkPatternList [litWord "b"] [cmdStmt ["echo"]]]
               (mkPatternList [litWord "c"] [cmdStmt ["echo"]]))))) _ _).
  - reflexivity.
  - intros q [<- | [<- | []]]; reflexivity.
Defined.

(** ** For loops *)

Lemma wordJoin_concat (words : list Word) (sep : string) :
  wordJoin words sep = String.concat sep (map Word_String words).
Proof.
  unfold wordJoin, nodeJoin. rewrite nodeJoin_by_concat, map_map. reflexivity.
Qed.

Lemma ForStmt_String_eq (for_ done : Pos) (name : Lit) (wordList : list Word)
      (doStmts : list Stmt) :
  ForStmt_String (mkForStmt for_ done name wordList doStmts)
  = "for " ++ Lit_String name
      ++ match wordList with
         | [] => ""
         | _ :: _ => " in " ++ wordJoin wordList " "
         end
      ++ "; do" ++ stmtList doStmts ++ "done".
Proof.
  change (ForStmt_String (mkForStmt for_ done name wordList doStmts))
    with (Buffer_String
            (Fprint
               (let b := Fprint Buffer_empty
                           [val (Token_String FOR); str " "; val (Lit_String name)] in
                if Nat.ltb 0 (List.length wordList)
                then Fprintf b " %s %s"
                       [Token_String IN; wordJoin_by Word_String wordList " "]
                else b)
               [str "; "; val (Token_String DO); str (stmtList doStmts);
                val (Token_String DONE)])).
  unfold Buffer_String, Buffer_empty. cbv zeta.
  rewrite Fprint_val_str_val, Fprint_str_val_str_val.
  destruct wordList as [|w ws].
  - simpl. rewrite ?append_assoc. reflexivity.
  - rewrite wordJoin_by_eq. unfold Fprintf. simpl.
    rewrite ?append_assoc. simpl. rewrite ?append_nil_r. reflexivity.
Qed.

Lemma occurrences_for_parts (head body : string) :
  occurrences " in " (head ++ "; do" ++ body ++ "done")
  = occurrences " in " head + occurrences " in " body.
Proof.
  rewrite occurrences_append; [|discriminate|no_crossing].
  f_equal.
  change (occurrences " in " ("; do" ++ body ++ "done"))
    with (occurrences " in " (body ++ "done")).
  rewrite occurrences_append; [|discriminate|no_crossing].
  simpl. lia.
Qed.

(** C7, as stated, fails: [nestedFor] has an empty word list and its text,
    "for i; do for j in a b; do echo; done; done", contains " in ", from the
    loop in its body. *)
Lemma ForStmt_nested_contains_in :
  ForStmt_WordList nestedFor = [] /\
  ForStmt_String nestedFor = "for i; do for j in a b; do echo; done; done" /\
  contains " in " (ForStmt_String nestedFor) = true.
Proof. repeat split. Qed.

(** C7, amended.  The text of a ForStmt is "for ", the name, then " in "
    and the words joined by spaces if and only if the word list is not empty,
    then "; do", the inline list of its statements, and "done".  With an
    empty word list the ForStmt writes no " in ": the occurrences of " in "
    in its text are those in "for " followed by the name and those in the
    inline list of its statements, so the text contains " in " only if the
    name or the body brings it. *)
Theorem ForStmt_render :
  forall (for_ done : Pos) (name : Lit) (wordList : list Word)
         (doStmts : list Stmt),
    let f := mkForStmt for_ done name wordList doStmts in
    ForStmt_String f
    = "for " ++ Lit_String name
        ++ match wordList with
           | [] => ""
           | _ :: _ => " in " ++ wordJoin wordList " "
           end
        ++ "; do" ++ stmtList doStmts ++ "done" /\
    wordJoin wordList " " = String.concat " " (map Word_String wordList) /\
    (wordList <> [] -> contains " in " (ForStmt_String f) = true) /\
    (wordList = [] ->
     ForStmt_String f
     = "for " ++ Lit_String name ++ "; do" ++ stmtList doStmts ++ "done" /\
     occurrences " in " (ForStmt_String f)
     = occurrences " in " ("for " ++ Lit_String name)
       + occurrences " in " (stmtList doStmts) /\
     contains " in " (ForStmt_String f)
     = contains " in " ("for " ++ Lit_String name)
       || contains " in " (stmtList doStmts)).
Proof.
  intros for_ done name wordList doStmts f.
  split; [apply ForStmt_String_eq|]. split; [apply wordJoin_concat|]. split.
  - intros Hne. unfold f. rewrite ForStmt_String_eq.
    destruct wordList as [|w ws]; [contradiction|].
    apply contains_spec; [discriminate|].
    exists ("for " ++ Lit_String name),
           (wordJoin (w :: ws) " " ++ "; do" ++ stmtList doStmts ++ "done").
    now rewrite !append_assoc.
  - intros ->. unfold f. rewrite ForStmt_String_eq.
    assert (Hocc : occurrences " in "
                     ("for " ++ Lit_String name ++ "" ++ "; do"
                        ++ stmtList doStmts ++ "done")
                   = occurrences " in " ("for " ++ Lit_String name)
                     + occurrences " in " (stmtList doStmts)).
    { change ("for " ++ Lit_String name ++ "" ++ "; do" ++ stmtList doStmts ++ "done")
        with ("for " ++ Lit_String name ++ "; do" ++ stmtList doStmts ++ "done").
      rewrite <- (append_assoc "for "). apply occurrences_for_parts. }
    split; [reflexivity|]. split; [exact Hocc|].
    unfold contains. rewrite Hocc.
    destruct (occurrences " in " ("for " ++ Lit_String name));
      destruct (occurrences " in " (stmtList doStmts)); reflexivity.
Qed.

Lemma ForStmt_render_witness :
  ForStmt_String (mkForStmt defaultPos defaultPos (lit "i") [] [cmdStmt ["echo"]])
  = "for " ++ Lit_String (lit "i") ++ "; do" ++ stmtList [cmdStmt ["echo"]]
      ++ "done" /\
  contains " in "
    (ForStmt_String
       (mkForStmt defaultPos defaultPos (lit "j") [litWord "a"] [cmdStmt ["echo"]]))
  = true.
Proof.
  split.
  - refine (proj1 (proj2 (proj2 (proj2
              (ForStmt_render defaultPos defaultPos (lit "i") [] [cmdStmt ["echo"]])))
              _)).
    reflexivity.
  - refine (proj1 (proj2 (proj2
              (ForStmt_render defaultPos defaultPos (lit "j") [litWord "a"]
                 [cmdStmt ["echo"]]))) _).
    discriminate.
Defined.

(** ** Compound commands with inline lists *)

(** Brings a concatenation to its right-nested form. *)
Ltac norm_append :=
  repeat (progress (rewrite ?append_assoc; simpl)).

Lemma Sprint_keyword_lists (k1 : Token) (l1 : string) (k2 : Token) (l2 : string)
      (k3 : Token) :
  Sprint [val (Token_String k1); str l1; val (Token_String k2); str l2;
          val (Token_String k3)]
  = Token_String k1 ++ l1 ++ Token_String k2 ++ l2 ++ Token_String k3.
Proof.
  unfold Sprint, Fprint, Buffer_String, Buffer_empty. simpl.
  now rewrite !append_assoc.
Qed.

Lemma WhileStmt_String_eq (w : WhileStmt) :
  WhileStmt_String w
  = "while" ++ stmtList (WhileStmt_Conds w) ++ "do"
      ++ stmtList (WhileStmt_DoStmts w) ++ "done".
Proof.
  destruct w as [pw pd conds doStmts].
  change (WhileStmt_String (mkWhileStmt pw pd conds doStmts))
    with (Sprint [val (Token_String WHILE); str (stmtList conds);
                  val (Token_String DO); str (stmtList doStmts);
                  val (Token_String DONE)]).
  apply Sprint_keyword_lists.
Qed.

Lemma UntilStmt_String_eq (u : UntilStmt) :
  UntilStmt_String u
  = "until" ++ stmtList (UntilStmt_Conds u) ++ "do"
      ++ stmtList (UntilStmt_DoStmts u) ++ "done".
Proof.
  destruct u as [pu pd conds doStmts].
  change (UntilStmt_String (mkUntilStmt pu pd conds doStmts))
    with (Sprint [val (Token_String UNTIL); str (stmtList conds);
                  val (Token_String DO); str (stmtList doStmts);
                  val (Token_String DONE)]).
  apply Sprint_keyword_lists.
Qed.

Lemma Elif_String_eq (e : Elif) :
  Elif_String e
  = "elif" ++ stmtList (Elif_Conds e) ++ "then" ++ stmtList (Elif_ThenStmts e).
Proof.
  destruct e as [pe conds thenStmts].
  change (Elif_String (mkElif pe conds thenStmts))
    with (Sprint [val (Token_String ELIF); str (stmtList conds);
                  val (Token_String THEN); str (stmtList thenStmts)]).
  unfold Sprint, Buffer_String, Buffer_empty.
  now rewrite Fprint_val_str_val_str.
Qed.

Lemma IfStmt_String_eq (s : IfStmt) :
  IfStmt_String s
  = "if" ++ stmtList (IfStmt_Conds s) ++ "then" ++ stmtList (IfStmt_ThenStmts s)
      ++ catAll (map Elif_String (IfStmt_Elifs s))
      ++ match IfStmt_ElseStmts s with
         | [] => ""
         | _ :: _ => "else" ++ stmtList (IfStmt_ElseStmts s)
         end
      ++ "fi".
Proof.
  destruct s as [pi pf conds thenStmts elifs elseStmts].
  change (IfStmt_String (mkIfStmt pi pf conds thenStmts elifs elseStmts))
    with (Buffer_String
            (Fprint
               (let b := for_range (fun _ elif b => Fprint b [val (Elif_String elif)])
                           0 elifs
                           (Fprint Buffer_empty
                              [val (Token_String IF); str (stmtList conds);
                               val (Token_String THEN); str (stmtList thenStmts)]) in
                if Nat.ltb 0 (List.length elseStmts)
                then Fprint b [val (Token_String ELSE); str (stmtList elseStmts)]
                else b)
               [val (Token_String FI)])).
  unfold Buffer_String, Buffer_empty. cbv zeta.
  cbn [IfStmt_Conds IfStmt_ThenStmts IfStmt_Elifs IfStmt_ElseStmts].
  assert (Hloop : forall l i b,
             for_range (fun (_ : nat) elif b => Fprint b [val (Elif_String elif)]) i l b
             = b ++ catAll (map Elif_String l)).
  { induction l as [|e l IH]; intros i b; simpl.
    - now rewrite append_nil_r.
    - rewrite IH, Fprint_val. apply append_assoc. }
  rewrite Hloop, Fprint_val_str_val_str.
  destruct elseStmts as [|e es].
  - simpl. rewrite Fprint_val. norm_append. reflexivity.
  - cbn [List.length Nat.ltb Nat.leb].
    rewrite Fprint_val_str, Fprint_val. norm_append. reflexivity.
Qed.

(** ** Positions *)

(** C8, as stated, fails for a File: ast.go declares no [Pos] method on
    [File], which has [String] only and is not a node, so a File without
    statements has no position, and not the unknown one. *)
Lemma File_has_no_Pos :
  File_Stmts (mkFile "script.sh" []) = [] /\
  Value_String (FileValue (mkFile "script.sh" [])) = "" /\
  Value_Pos (FileValue (mkFile "script.sh" [])) = None /\
  Value_Pos (FileValue (mkFile "script.sh" [])) <> Some defaultPos.
Proof. repeat split. discriminate. Qed.

(** C8, amended.  The position of a Word is that of its first part, and
    the unknown position [defaultPos] when it has no parts; the position of a
    Command is that of its first word, and [defaultPos] when it has no words;
    a Word without parts renders as the empty text.  Every other node type
    returns a position it records, whatever its sequences hold: a Stmt its
    Position, an Assign the ValuePos of its Name, a Subshell its Lparen, a
    Block its Rbrace, an IfStmt its If, a WhileStmt its While, an UntilStmt
    its Until, a ForStmt its For, a BinaryExpr the Position of X, a FuncDecl
    its Position, a Lit its ValuePos, a SglQuoted and a DblQuoted their
    Quote, a CmdSubst its Left, a ParamExp and an ArithmExp their Exp, a
    CaseStmt its Case.  So Word and Command are the only two node types
    whose position comes from a child sequence, and File has no [Pos]
    method. *)
Theorem Pos_of_child_sequence :
  (forall (n : Node) (parts : list Node),
      Word_Pos (mkWord (n :: parts)) = Node_Pos n) /\
  Word_Pos (mkWord []) = defaultPos /\
  (forall (w : Word) (args : list Word),
      Command_Pos (mkCommand (w :: args)) = Word_Pos w) /\
  Command_Pos (mkCommand []) = defaultPos /\
  (forall (n : Node) (ns : list Node), nodeFirstPos (n :: ns) = Node_Pos n) /\
  nodeFirstPos [] = defaultPos /\
  (forall (w : Word) (ws : list Word), wordFirstPos (w :: ws) = Word_Pos w) /\
  wordFirstPos [] = defaultPos /\
  defaultPos = mkPos 0 0 /\
  Word_String (mkWord []) = "" /\
  (forall (lparen rparen : Pos) (stmts : list Stmt),
      Subshell_Pos (mkSubshell lparen rparen stmts) = lparen) /\
  (forall (lbrace rbrace : Pos) (stmts : list Stmt),
      Block_Pos (mkBlock lbrace rbrace stmts) = rbrace) /\
  (forall (quote : Pos) (parts : list Node),
      DblQuoted_Pos (mkDblQuoted quote parts) = quote) /\
  (forall (left right : Pos) (backquotes : bool) (stmts : list Stmt),
      CmdSubst_Pos (mkCmdSubst left right backquotes stmts) = left) /\
  (forall (exp rparen : Pos) (words : list Word),
      ArithmExp_Pos (mkArithmExp exp rparen words) = exp) /\
  (forall f : File, Value_Pos (FileValue f) = None) /\
  (forall (node : option Node) (pos : Pos) (negated : bool)
          (assigns : list Assign) (redirs : list Redirect) (background : bool),
      Stmt_Pos (mkStmt node pos negated assigns redirs background) = pos) /\
  (forall (valuePos : Pos) (text : string) (value : Word),
      Assign_Pos (mkAssign (mkLit valuePos text) value) = valuePos) /\
  (forall (if_ fi : Pos) (conds thenStmts : list Stmt) (elifs : list Elif)
          (elseStmts : list Stmt),
      IfStmt_Pos (mkIfStmt if_ fi conds thenStmts elifs elseStmts) = if_) /\
  (forall (while done : Pos) (conds doStmts : list Stmt),
      WhileStmt_Pos (mkWhileStmt while done conds doStmts) = while) /\
  (forall (until done : Pos) (conds doStmts : list Stmt),
      UntilStmt_Pos (mkUntilStmt until done conds doStmts) = until) /\
  (forall (for_ done : Pos) (name : Lit) (wordList : list Word)
          (doStmts : list Stmt),
      ForStmt_Pos (mkForStmt for_ done name wordList doStmts) = for_) /\
  (forall (opPos : Pos) (op : Token) (x y : Stmt),
      BinaryExpr_Pos (mkBinaryExpr opPos op x y) = Stmt_Position x) /\
  (forall (pos : Pos) (bashStyle : bool) (name : Lit) (body : Stmt),
      FuncDecl_Pos (mkFuncDecl pos bashStyle name body) = pos) /\
  (forall (valuePos : Pos) (text : string),
      Lit_Pos (mkLit valuePos text) = valuePos) /\
  (forall (quote : Pos) (text : string),
      SglQuoted_Pos (mkSglQuoted quote text) = quote) /\
  (forall (exp : Pos) (short : bool) (text : string),
      ParamExp_Pos (mkParamExp exp short text) = exp) /\
  (forall (case_ esac : Pos) (word : Word) (list : list PatternList),
      CaseStmt_Pos (mkCaseStmt case_ esac word list) = case_) /\
  (forall n : Node,
      match n with
      | WordNode w => Node_Pos n = nodeFirstPos (Word_Parts w)
      | CommandNode c => Node_Pos n = wordFirstPos (Command_Args c)
      | StmtNode s => Node_Pos n = Stmt_Position s
      | AssignNode a => Node_Pos n = Lit_ValuePos (Assign_Name a)
      | SubshellNode s => Node_Pos n = Subshell_Lparen s
      | BlockNode b => Node_Pos n = Block_Rbrace b
      | IfStmtNode s => Node_Pos n = IfStmt_If s
      | WhileStmtNode w => Node_Pos n = WhileStmt_While w
      | UntilStmtNode u => Node_Pos n = UntilStmt_Until u
      | ForStmtNode f => Node_Pos n = ForStmt_For f
      | BinaryExprNode b => Node_Pos n = Stmt_Position (BinaryExpr_X b)
      | FuncDeclNode f => Node_Pos n = FuncDecl_Position f
      | LitNode l => Node_Pos n = Lit_ValuePos l
      | SglQuotedNode q => Node_Pos n = SglQuoted_Quote q
      | DblQuotedNode q => Node_Pos n = DblQuoted_Quote q
      | CmdSubstNode c => Node_Pos n = CmdSubst_Left c
      | ParamExpNode p => Node_Pos n = ParamExp_Exp p
      | ArithmExpNode a => Node_Pos n = ArithmExp_Exp a
      | CaseStmtNode c => Node_Pos n = CaseStmt_Case c
      end).
Proof.
  repeat split.
  intros n. destruct n as [s|a|c|s|b|s|w|u|f|b|f|w|l|q|q|c|p|a|c];
    try reflexivity.
  - destruct c. reflexivity.
  - destruct w. reflexivity.
Qed.

(** ** Scenarios *)

Example File_echo_hi :
  File_String (mkFile "script.sh" [cmdStmt ["echo"; "hi"]]) = "echo hi".
Proof. reflexivity. Qed.

Example Assign_x_1 :
  Assign_String (mkAssign (lit "x") (litWord "1")) = "x=1".
Proof. reflexivity. Qed.

Example For_without_words :
  ForStmt_String
    (mkForStmt defaultPos defaultPos (lit "i") [] [cmdStmt ["echo"; "hi"]])
  = "for i; do echo hi; done".
Proof. reflexivity. Qed.

Example File_heredoc_then_command :
  File_String (mkFile "script.sh" [heredocStmt; cmdStmt ["echo"; "hi"]])
  = "cat <<EOF" ++ newline ++ "echo hi".
Proof. reflexivity. Qed.

Example Block_after_heredoc :
  Block_String (mkBlock defaultPos defaultPos [cmdStmt ["echo"]; heredocStmt])
  = "{ echo; cat <<EOF" ++ newline ++ "}".
Proof. reflexivity. Qed.

Example If_elif_else :
  IfStmt_String
    (mkIfStmt defaultPos defaultPos [cmdStmt ["a"]] [cmdStmt ["b"]]
       [mkElif defaultPos [cmdStmt ["c"]] [cmdStmt ["d"]]] [cmdStmt ["e"]])
  = "if a; then b; elif c; then d; else e; fi".
Proof. reflexivity. Qed.

(* ================================================================= *)
(** * Further properties of the rendering *)

(** ** Joins *)

Lemma concat_append (sep : string) (a b : list string) :
  a <> [] -> b <> [] ->
  String.concat sep (a ++ b)%list = String.concat sep a ++ sep ++ String.concat sep b.
Proof.
  intros Ha Hb. induction a as [|x a IH]; [contradiction|].
  destruct a as [|y a].
  - simpl app. now rewrite concat_more.
  - change ((x :: y :: a) ++ b)%list with (x :: ((y :: a) ++ b))%list.
    rewrite concat_more by discriminate.
    rewrite IH by discriminate.
    rewrite (concat_more sep x (y :: a)) by discriminate.
    now rewrite !append_assoc.
Qed.

Lemma concat_empty_sep (l : list string) : String.concat "" l = catAll l.
Proof.
  induction l as [|x l IH]; [reflexivity|].
  destruct l as [|y l].
  - simpl. now rewrite append_nil_r.
  - rewrite concat_more by discriminate. rewrite IH. reflexivity.
Qed.

Lemma catAll_append (a b : list string) :
  catAll (a ++ b)%list = catAll a ++ catAll b.
Proof.
  induction a as [|x a IH]; [reflexivity|].
  simpl. now rewrite IH, append_assoc.
Qed.

Lemma nodeJoin_concat (ns : list Node) (sep : string) :
  nodeJoin ns sep = String.concat sep (map Node_String ns).
Proof. apply nodeJoin_by_concat. Qed.

(** X1. [nodeJoin] and [stringerJoin] write the separator between
    consecutive elements only: nothing for an empty sequence, the render
    alone for a single element, and the join of two non-empty sequences put
    one after the other is the two joins with one separator in between.  They
    are the library join of the renders. *)
Theorem nodeJoin_laws :
  forall sep : string,
    nodeJoin [] sep = "" /\
    (forall n : Node, nodeJoin [n] sep = Node_String n) /\
    (forall a b : list Node,
        a <> [] -> b <> [] ->
        nodeJoin (a ++ b)%list sep = nodeJoin a sep ++ sep ++ nodeJoin b sep) /\
    (forall ns : list Node,
        nodeJoin ns sep = String.concat sep (map Node_String ns)) /\
    (forall strs : list Stringer, stringerJoin strs sep = String.concat sep strs).
Proof.
  intros sep. split; [reflexivity|]. split; [reflexivity|]. split; [|split].
  - intros a b Ha Hb. rewrite !nodeJoin_concat, map_app.
    apply concat_append; (destruct a + destruct b); (contradiction || discriminate).
  - intros ns. apply nodeJoin_concat.
  - intros strs. apply stringerJoin_concat.
Qed.

Lemma nodeJoin_laws_witness :
  nodeJoin ([LitNode (lit "a")] ++ [LitNode (lit "b"); LitNode (lit "c")])%list ", "
  = nodeJoin [LitNode (lit "a")] ", " ++ ", "
      ++ nodeJoin [LitNode (lit "b"); LitNode (lit "c")] ", ".
Proof.
  apply (proj1 (proj2 (proj2 (nodeJoin_laws ", ")))); discriminate.
Defined.

Lemma Word_String_catAll (parts : list Node) :
  Word_String (mkWord parts) = catAll (map Node_String parts).
Proof.
  change (Word_String (mkWord parts)) with (nodeJoin parts "").
  rewrite nodeJoin_concat. apply concat_empty_sep.
Qed.

(** X2. A Word renders its parts one after the other, without separator,
    so the render of a Word is the concatenation of the renders of any two
    Words its parts are split into; the boundaries between fragments leave no
    trace in the text (a literal renders like its two halves as separate
    literals).  A DblQuoted renders the same concatenation between two
    double quotes. *)
Theorem Word_String_append :
  (forall a b : list Node,
      Word_String (mkWord (a ++ b)%list)
      = Word_String (mkWord a) ++ Word_String (mkWord b)) /\
  (forall parts : list Node,
      Word_String (mkWord parts) = catAll (map Node_String parts)) /\
  (forall (p p1 p2 : Pos) (x y : string),
      Word_String (mkWord [LitNode (mkLit p (x ++ y))])
      = Word_String (mkWord [LitNode (mkLit p1 x); LitNode (mkLit p2 y)])) /\
  (forall (quote : Pos) (parts : list Node),
      DblQuoted_String (mkDblQuoted quote parts)
      = dquote ++ Word_String (mkWord parts) ++ dquote).
Proof.
  split; [|split; [|split]].
  - intros a b. rewrite !Word_String_catAll, map_app. apply catAll_append.
  - intros parts. apply Word_String_catAll.
  - intros p p1 p2 x y. rewrite !Word_String_catAll. simpl.
    unfold Lit_String. simpl. now rewrite !append_nil_r.
  - intros quote parts. reflexivity.
Qed.

Lemma Command_String_wordJoin (args : list Word) :
  Command_String (mkCommand args) = wordJoin args " ".
Proof.
  change (Command_String (mkCommand args)) with (wordJoin_by Word_String args " ").
  apply wordJoin_by_eq.
Qed.

(** X3. A Command renders its words joined by single spaces: nothing
    without words, and the renders of two non-empty word sequences put one
    after the other are separated by exactly one space.  [wordJoin] is
    [nodeJoin] on the words stored as nodes, and an ArithmExp wraps the same
    join of its words in "$((" and "))". *)
Theorem Command_String_words :
  (forall args : list Word,
      Command_String (mkCommand args)
      = String.concat " " (map Word_String args)) /\
  Command_String (mkCommand []) = "" /\
  (forall a b : list Word,
      a <> [] -> b <> [] ->
      Command_String (mkCommand (a ++ b)%list)
      = Command_String (mkCommand a) ++ " " ++ Command_String (mkCommand b)) /\
  (forall (words : list Word) (sep : string),
      wordJoin words sep = nodeJoin (map WordNode words) sep) /\
  (forall (exp rparen : Pos) (words : list Word),
      ArithmExp_String (mkArithmExp exp rparen words)
      = "$((" ++ Command_String (mkCommand words) ++ "))").
Proof.
  split; [|split; [reflexivity|split; [|split]]].
  - intros args. rewrite Command_String_wordJoin. apply wordJoin_concat.
  - intros a b Ha Hb. rewrite !Command_String_wordJoin, !wordJoin_concat, map_app.
    apply concat_append; (destruct a + destruct b); (contradiction || discriminate).
  - reflexivity.
  - intros exp rparen words. rewrite Command_String_wordJoin.
    change (ArithmExp_String (mkArithmExp exp rparen words))
      with ("$((" ++ wordJoin_by Word_String words " " ++ "))").
    now rewrite wordJoin_by_eq.
Qed.

Lemma Command_String_words_witness :
  Command_String (mkCommand ([litWord "echo"] ++ [litWord "hi"])%list)
  = Command_String (mkCommand [litWord "echo"]) ++ " "
      ++ Command_String (mkCommand [litWord "hi"]).
Proof.
  apply (proj1 (proj2 (proj2 Command_String_words))); discriminate.
Defined.

(** ** Inline lists and delimiters *)

Lemma stmtList_cons_eq (s : Stmt) (rest : list Stmt) :
  stmtList (s :: rest)
  = " " ++ stmtJoin (s :: rest)
      ++ (if endsWithByte (stmtJoin (s :: rest)) newline_char then "" else "; ").
Proof.
  unfold stmtList, stmtList_by. simpl Nat.eqb. cbv iota.
  change (stmtJoin_by Stmt_String (s :: rest)) with (stmtJoin (s :: rest)).
  destruct (endsWithByte (stmtJoin (s :: rest)) newline_char) eqn:E.
  - rewrite (endsWithByte_nonempty _ _ E). simpl. now rewrite append_nil_r.
  - rewrite andb_false_r. reflexivity.
Qed.

Lemma stmtJoin_last (pre : list Stmt) (s : Stmt) :
  stmtJoin (pre ++ [s])%list
  = stmtJoinBefore pre ++ Stmt_String s
      ++ (if Stmt_newlineAfter s then newline else "").
Proof.
  unfold stmtJoin. rewrite stmtJoinWithEnd_last. now rewrite andb_true_r.
Qed.

(** X4. The inline statement list always ends with a separator: its text
    ends with "; " or with a newline, whatever the statements are, so the
    keyword or brace written after it never touches the last statement.  A
    Block therefore ends with "; }" or with a newline and "}". *)
Theorem stmtList_ends_in_separator :
  forall stmts : list Stmt,
    (endsWith "; " (stmtList stmts) \/ endsWith newline (stmtList stmts)) /\
    (forall lbrace rbrace : Pos,
        endsWith "; }" (Block_String (mkBlock lbrace rbrace stmts)) \/
        endsWith (newline ++ "}") (Block_String (mkBlock lbrace rbrace stmts))).
Proof.
  intros stmts.
  assert (H : endsWith "; " (stmtList stmts) \/ endsWith newline (stmtList stmts)).
  { destruct stmts as [|s rest].
    - left. now exists "".
    - rewrite stmtList_cons_eq.
      destruct (endsWithByte (stmtJoin (s :: rest)) newline_char) eqn:E.
      + right. apply endsWithByte_spec in E. destruct E as [p Hp].
        exists (" " ++ p). rewrite Hp. simpl. now rewrite append_nil_r.
      + left. exists (" " ++ stmtJoin (s :: rest)). now rewrite append_assoc. }
  split; [exact H|].
  intros lbrace rbrace.
  change (Block_String (mkBlock lbrace rbrace stmts))
    with ("{" ++ stmtList stmts ++ "}").
  destruct H as [[p Hp] | [p Hp]]; [left | right]; exists ("{" ++ p);
    rewrite Hp; simpl; now rewrite !append_assoc.
Qed.

(** X5. A statement with a heredoc-type redirect at the final position of
    a sequence gets its line break from every construct that closes after the
    sequence: the terminating join, the inline list (which then adds no
    "; "), a Subshell, a CmdSubst and a Block all write a newline between
    the render of that statement and what follows. *)
Theorem heredoc_last_terminated :
  forall (pre : list Stmt) (s : Stmt),
    carriesHeredoc s ->
    let body := stmtJoinBefore pre ++ Stmt_String s in
    stmtJoin (pre ++ [s])%list = body ++ newline /\
    stmtList (pre ++ [s])%list = " " ++ body ++ newline /\
    (forall lparen rparen : Pos,
        Subshell_String (mkSubshell lparen rparen (pre ++ [s])%list)
        = "(" ++ body ++ newline ++ ")") /\
    (forall (left right : Pos) (backquotes : bool),
        CmdSubst_String (mkCmdSubst left right backquotes (pre ++ [s])%list)
        = (if backquotes then "`" else "$(") ++ body ++ newline
            ++ (if backquotes then "`" else ")")) /\
    (forall lbrace rbrace : Pos,
        Block_String (mkBlock lbrace rbrace (pre ++ [s])%list)
        = "{ " ++ body ++ newline ++ "}").
Proof.
  intros pre s Hs body.
  apply Stmt_newlineAfter_spec in Hs.
  assert (Hjoin : stmtJoin (pre ++ [s])%list = body ++ newline).
  { rewrite stmtJoin_last, Hs. unfold body. now rewrite append_assoc. }
  assert (Hlist : stmtList (pre ++ [s])%list = " " ++ body ++ newline).
  { destruct (pre ++ [s])%list as [|x l] eqn:E; [destruct pre; discriminate|].
    rewrite stmtList_cons_eq, Hjoin.
    assert (endsWithByte (body ++ newline) newline_char = true) as ->
        by (apply endsWithByte_spec; now exists body).
    now rewrite append_nil_r. }
  split; [exact Hjoin|]. split; [exact Hlist|]. split; [|split].
  - intros lparen rparen.
    change (Subshell_String (mkSubshell lparen rparen (pre ++ [s])%list))
      with (if Nat.eqb (List.length (pre ++ [s])%list) 0 then "( )"
            else "(" ++ stmtJoin (pre ++ [s])%list ++ ")").
    rewrite length_app, Nat.add_comm. simpl Nat.eqb. cbv iota.
    rewrite Hjoin. now rewrite !append_assoc.
  - intros left right backquotes.
    change (CmdSubst_String (mkCmdSubst left right backquotes (pre ++ [s])%list))
      with (if backquotes then backquote ++ stmtJoin (pre ++ [s])%list ++ backquote
            else "$(" ++ stmtJoin (pre ++ [s])%list ++ ")").
    rewrite Hjoin. destruct backquotes; unfold backquote; now rewrite !append_assoc.
  - intros lbrace rbrace.
    change (Block_String (mkBlock lbrace rbrace (pre ++ [s])%list))
      with ("{" ++ stmtList (pre ++ [s])%list ++ "}").
    rewrite Hlist. simpl. now rewrite !append_assoc.
Qed.

Lemma carriesHeredoc_heredocStmt : carriesHeredoc heredocStmt.
Proof.
  exists (mkRedirect defaultPos HEREDOC (lit "") (litWord "EOF")).
  split; [left; reflexivity | left; reflexivity].
Defined.

Lemma heredoc_last_terminated_witness :
  carriesHeredoc heredocStmt /\
  stmtList ([cmdStmt ["echo"]] ++ [heredocStmt])%list
  = " " ++ (stmtJoinBefore [cmdStmt ["echo"]] ++ Stmt_String heredocStmt)
      ++ newline.
Proof.
  split; [exact carriesHeredoc_heredocStmt|].
  exact (proj1 (proj2 (heredoc_last_terminated [cmdStmt ["echo"]] heredocStmt
                         carriesHeredoc_heredocStmt))).
Defined.

Lemma stmtJoinBefore_snoc (a : list Stmt) (s : Stmt) :
  stmtJoinBefore (a ++ [s])%list
  = stmtJoinBefore a ++ Stmt_String s
      ++ (if Stmt_newlineAfter s then newline else "; ").
Proof.
  unfold stmtJoinBefore. rewrite map_app, catAll_append. simpl.
  now rewrite append_nil_r.
Qed.

(** X6. Terminating joins compose.  The terminating join of a sequence
    followed by a non-empty sequence is the terminating join of the first,
    then the terminating join of the second when the first ends with a
    statement that carries a heredoc-type redirect (its final newline is the
    separator), and "; " then the join of the second otherwise. *)
Theorem stmtJoin_append :
  forall (a : list Stmt) (s : Stmt) (b : list Stmt),
    b <> [] ->
    stmtJoin ((a ++ [s]) ++ b)%list
    = stmtJoin (a ++ [s])%list
        ++ (if Stmt_newlineAfter s then "" else "; ")
        ++ stmtJoin b.
Proof.
  intros a s b Hb. unfold stmtJoin at 1.
  rewrite stmtJoinWithEnd_split by assumption.
  rewrite stmtJoinBefore_snoc, stmtJoin_last.
  fold (stmtJoin b).
  destruct (Stmt_newlineAfter s); now rewrite !append_assoc.
Qed.

Lemma stmtJoin_append_witness :
  stmtJoin (([cmdStmt ["echo"]] ++ [heredocStmt]) ++ [cmdStmt ["ls"]])%list
  = stmtJoin ([cmdStmt ["echo"]] ++ [heredocStmt])%list
      ++ (if Stmt_newlineAfter heredocStmt then "" else "; ")
      ++ stmtJoin [cmdStmt ["ls"]].
Proof.
  apply (stmtJoin_append [cmdStmt ["echo"]] heredocStmt [cmdStmt ["ls"]]).
  discriminate.
Defined.

(** ** Statements *)

Lemma Stmt_newlineAfter_existsb (s : Stmt) :
  Stmt_newlineAfter s = existsb isHeredocOp (Stmt_Redirs s).
Proof.
  unfold Stmt_newlineAfter.
  induction (Stmt_Redirs s) as [|r rs IH]; [reflexivity|].
  simpl existsb. rewrite <- IH. unfold isHeredocOp.
  destruct (Token_eqb (Redirect_Op r) HEREDOC || Token_eqb (Redirect_Op r) DHEREDOC);
    reflexivity.
Qed.

(** X7. Whether a newline follows a statement depends on the redirects of
    that statement alone: on none of its other fields, and not on redirects
    carried by statements nested in its inner node.  A statement without
    redirects of its own is followed by "; " in a join, whatever its inner
    node is. *)
Theorem newlineAfter_own_redirects :
  forall (node : option Node) (pos : Pos) (negated : bool)
         (assigns : list Assign) (redirs : list Redirect) (background : bool),
    Stmt_newlineAfter (mkStmt node pos negated assigns redirs background)
    = existsb isHeredocOp redirs /\
    (forall (t : Stmt) (rest : list Stmt) (end_ : bool),
        stmtJoinWithEnd
          (mkStmt node pos negated assigns [] background :: t :: rest) end_
        = Stmt_String (mkStmt node pos negated assigns [] background)
            ++ "; " ++ stmtJoinWithEnd (t :: rest) end_) /\
    (forall end_ : bool,
        stmtJoinWithEnd [mkStmt node pos negated assigns [] background] end_
        = Stmt_String (mkStmt node pos negated assigns [] background)).
Proof.
  intros node pos negated assigns redirs background.
  split; [apply Stmt_newlineAfter_existsb|]. split.
  - intros t rest end_. now rewrite stmtJoinWithEnd_two.
  - intros end_. rewrite stmtJoinWithEnd_one. simpl. apply append_nil_r.
Qed.

(** The here-document inside a binary expression does not reach the
    separator after the expression. *)
Example heredoc_inside_BinaryExpr :
  stmtJoin [andHeredocStmt; cmdStmt ["b"]] = "a && cat <<EOF; b".
Proof. reflexivity. Qed.

Lemma append_eq_nil (a b : string) : a ++ b = "" -> a = "" /\ b = "".
Proof. destruct a; simpl; [now split | discriminate]. Qed.

Lemma stmtJoin_empty_iff (s : Stmt) (rest : list Stmt) :
  stmtJoin (s :: rest) = "" <->
  rest = [] /\ Stmt_String s = "" /\ Stmt_newlineAfter s = false.
Proof.
  unfold stmtJoin. split.
  - destruct rest as [|t rest].
    + rewrite stmtJoinWithEnd_one, andb_true_r. intros H.
      apply append_eq_nil in H. destruct H as [H1 H2].
      destruct (Stmt_newlineAfter s); [discriminate | now repeat split].
    + rewrite stmtJoinWithEnd_two. intros H.
      apply append_eq_nil in H. destruct H as [_ H].
      destruct (Stmt_newlineAfter s); discriminate.
  - intros (-> & Hs & Hn). rewrite stmtJoinWithEnd_one, Hs, Hn. reflexivity.
Qed.

(** X8. A Subshell renders to "()" only when it holds a single statement
    whose render is empty: the special case for the empty sequence avoids
    "()", and so does every Subshell whose statements render to some text. *)
Theorem Subshell_empty_parens :
  forall sub : Subshell,
    (Subshell_String sub = "()" <->
     exists s, Subshell_Stmts sub = [s] /\ Stmt_String s = "" /\
               Stmt_newlineAfter s = false) /\
    ((forall s, In s (Subshell_Stmts sub) -> Stmt_String s <> "") ->
     Subshell_String sub <> "()").
Proof.
  intros sub.
  assert (H : Subshell_String sub = "()" <->
              exists s, Subshell_Stmts sub = [s] /\ Stmt_String s = "" /\
                        Stmt_newlineAfter s = false).
  { destruct sub as [lparen rparen stmts]. simpl Subshell_Stmts.
    destruct stmts as [|s rest].
    - split; [discriminate | intros (s & Hs & _); discriminate].
    - change (Subshell_String (mkSubshell lparen rparen (s :: rest)))
        with ("(" ++ stmtJoin (s :: rest) ++ ")").
      split.
      + intros H. injection H as H.
        assert (Hj : stmtJoin (s :: rest) = "").
        { destruct (stmtJoin (s :: rest)) as [|c j]; [reflexivity|].
          injection H as _ H. destruct j; discriminate. }
        apply stmtJoin_empty_iff in Hj. destruct Hj as (-> & Hs & Hn).
        now exists s.
      + intros (s' & Heq & Hs & Hn). injection Heq as -> ->.
        assert (Hj : stmtJoin [s'] = "") by (apply stmtJoin_empty_iff; now repeat split).
        now rewrite Hj. }
  split; [exact H|].
  intros Hall Hparens. apply H in Hparens. destruct Hparens as (s & Hs & Hempty & _).
  apply (Hall s); [rewrite Hs; now left | exact Hempty].
Qed.

Lemma Subshell_empty_parens_witness :
  Subshell_String (mkSubshell defaultPos defaultPos [cmdStmt ["ls"]]) <> "()".
Proof.
  apply (proj2 (Subshell_empty_parens
                  (mkSubshell defaultPos defaultPos [cmdStmt ["ls"]]))).
  intros s [<- | []]. discriminate.
Defined.

Lemma Stmt_String_concat (s : Stmt) :
  Stmt_String s = String.concat " " (Stmt_parts s).
Proof.
  destruct s as [node pos negated assigns redirs background].
  unfold Stmt_parts.
  cbn [Stmt_Negated Stmt_Node Stmt_Assigns Stmt_Redirs Stmt_Background].
  match goal with
  | |- ?lhs = _ =>
      change lhs with
        (stringerJoin
           (let strs : list Stringer := [] in
            let strs := if negated then (strs ++ [Token_String BANG])%list else strs in
            let strs := match node with
                        | Some n => (strs ++ [Node_String n])%list
                        | None => strs
                        end in
            let strs := for_range (fun _ a strs => (strs ++ [Assign_String a])%list)
                          0 assigns strs in
            let strs := for_range (fun _ r strs => (strs ++ [Redirect_String r])%list)
                          0 redirs strs in
            if background then (strs ++ [Token_String AND])%list else strs)
           " ")
  end.
  rewrite stringerJoin_concat. f_equal. cbv zeta.
  rewrite !for_range_snoc.
  destruct negated, node, background; simpl;
    rewrite <- ?app_assoc, ?app_nil_r; reflexivity.
Qed.

Lemma concat_snoc (sep x : string) (l : list string) :
  l <> [] -> String.concat sep (l ++ [x])%list = String.concat sep l ++ sep ++ x.
Proof. intros Hl. now rewrite concat_append by (assumption || discriminate). Qed.

(** X9. The modifiers of a statement wrap the rest of its text.  A
    statement that has only its inner node renders as that node; on a
    statement with an inner node, negation puts "! " in front of the text of
    the same statement without it, and backgrounding puts " &" after it;
    the recorded position plays no part.  Without any other part the markers
    stand alone, with no space. *)
Theorem Stmt_String_modifiers :
  forall (n : Node) (pos pos' : Pos) (negated background : bool)
         (assigns : list Assign) (redirs : list Redirect),
    Stmt_String (mkStmt (Some n) pos false [] [] false) = Node_String n /\
    Stmt_String (mkStmt (Some n) pos true assigns redirs background)
    = "! " ++ Stmt_String (mkStmt (Some n) pos' false assigns redirs background) /\
    Stmt_String (mkStmt (Some n) pos negated assigns redirs true)
    = Stmt_String (mkStmt (Some n) pos' negated assigns redirs false) ++ " &" /\
    Stmt_String (mkStmt None pos true [] [] false) = "!" /\
    Stmt_String (mkStmt None pos false [] [] true) = "&" /\
    Stmt_String (mkStmt None pos false [] [] false) = "".
Proof.
  intros n pos pos' negated background assigns redirs.
  split; [reflexivity|]. split; [|split; [|repeat split]].
  - rewrite !Stmt_String_concat. unfold Stmt_parts.
    cbn [Stmt_Negated Stmt_Node Stmt_Assigns Stmt_Redirs Stmt_Background].
    simpl app. rewrite concat_more by discriminate. reflexivity.
  - rewrite !Stmt_String_concat. unfold Stmt_parts.
    cbn [Stmt_Negated Stmt_Node Stmt_Assigns Stmt_Redirs Stmt_Background].
    rewrite app_nil_r, !app_assoc.
    rewrite concat_snoc; [reflexivity|].
    destruct negated; discriminate.
Qed.

(** ** Binary expressions and function declarations *)

Lemma BinaryExpr_String_eq (opPos : Pos) (op : Token) (x y : Stmt) :
  BinaryExpr_String (mkBinaryExpr opPos op x y)
  = Stmt_String x ++ " " ++ Token_String op ++ " " ++ Stmt_String y.
Proof.
  change (BinaryExpr_String (mkBinaryExpr opPos op x y))
    with (Sprintf "%s %s %s" [Stmt_String x; Token_String op; Stmt_String y]).
  simpl. now rewrite append_nil_r.
Qed.

(** X10. The text of a binary expression is its left operand, the
    operator and its right operand with single spaces, and it does not show
    how expressions nest: [(a op1 b) op2 c] and [a op1 (b op2 c)] render to
    the same text, "a op1 b op2 c". *)
Theorem BinaryExpr_nesting_invisible :
  forall (p1 p2 p3 p4 q1 q2 : Pos) (op1 op2 : Token) (a b c : Stmt),
    let left := mkBinaryExpr p1 op2
                  (mkStmt (Some (BinaryExprNode (mkBinaryExpr p2 op1 a b)))
                          q1 false [] [] false) c in
    let right := mkBinaryExpr p3 op1 a
                   (mkStmt (Some (BinaryExprNode (mkBinaryExpr p4 op2 b c)))
                           q2 false [] [] false) in
    BinaryExpr_String left
    = Stmt_String a ++ " " ++ Token_String op1 ++ " " ++ Stmt_String b
        ++ " " ++ Token_String op2 ++ " " ++ Stmt_String c /\
    BinaryExpr_String left = BinaryExpr_String right.
Proof.
  intros p1 p2 p3 p4 q1 q2 op1 op2 a b c left right.
  assert (Hwrap : forall (q : Pos) (n : Node),
             Stmt_String (mkStmt (Some n) q false [] [] false) = Node_String n)
    by reflexivity.
  assert (Hl : BinaryExpr_String left
               = Stmt_String a ++ " " ++ Token_String op1 ++ " " ++ Stmt_String b
                   ++ " " ++ Token_String op2 ++ " " ++ Stmt_String c).
  { unfold left. rewrite BinaryExpr_String_eq, Hwrap.
    change (Node_String (BinaryExprNode (mkBinaryExpr p2 op1 a b)))
      with (BinaryExpr_String (mkBinaryExpr p2 op1 a b)).
    rewrite BinaryExpr_String_eq. now rewrite !append_assoc. }
  split; [exact Hl|]. rewrite Hl.
  unfold right. rewrite BinaryExpr_String_eq, Hwrap.
  change (Node_String (BinaryExprNode (mkBinaryExpr p4 op2 b c)))
    with (BinaryExpr_String (mkBinaryExpr p4 op2 b c)).
  now rewrite BinaryExpr_String_eq.
Qed.

Lemma FuncDecl_String_eq (pos : Pos) (bashStyle : bool) (name : Lit) (body : Stmt) :
  FuncDecl_String (mkFuncDecl pos bashStyle name body)
  = (if bashStyle then "function " else "")
      ++ Lit_String name ++ "() " ++ Stmt_String body.
Proof.
  destruct bashStyle.
  - change (FuncDecl_String (mkFuncDecl pos true name body))
      with (Sprintf "%s %s() %s"
              [Token_String FUNCTION; Lit_String name; Stmt_String body]).
    simpl. now rewrite append_nil_r.
  - change (FuncDecl_String (mkFuncDecl pos false name body))
      with (Sprintf "%s() %s" [Lit_String name; Stmt_String body]).
    simpl. now rewrite append_nil_r.
Qed.

(** ** Compound commands *)

(** X11. The text of an IfStmt is "if", the inline list of the conditions,
    "then", the inline list of the then-branch, the renders of the elifs one
    after the other, "else" and the inline list of the else-branch if and
    only if that branch has statements, and "fi", with nothing between these
    pieces: an else-branch without statements is not written at all, and the
    text of an Elif is "elif", its conditions, "then", its statements. *)
Theorem IfStmt_render :
  forall (if_ fi : Pos) (conds thenStmts : list Stmt) (elifs : list Elif)
         (elseStmts : list Stmt),
    IfStmt_String (mkIfStmt if_ fi conds thenStmts elifs elseStmts)
    = "if" ++ stmtList conds ++ "then" ++ stmtList thenStmts
        ++ catAll (map Elif_String elifs)
        ++ match elseStmts with
           | [] => ""
           | _ :: _ => "else" ++ stmtList elseStmts
           end
        ++ "fi" /\
    IfStmt_String (mkIfStmt if_ fi conds thenStmts [] [])
    = "if" ++ stmtList conds ++ "then" ++ stmtList thenStmts ++ "fi" /\
    (forall e : Elif,
        Elif_String e
        = "elif" ++ stmtList (Elif_Conds e) ++ "then"
            ++ stmtList (Elif_ThenStmts e)) /\
    (forall more : list Elif,
        IfStmt_String (mkIfStmt if_ fi conds thenStmts (elifs ++ more) elseStmts)
        = "if" ++ stmtList conds ++ "then" ++ stmtList thenStmts
            ++ catAll (map Elif_String elifs) ++ catAll (map Elif_String more)
            ++ match elseStmts with
               | [] => ""
               | _ :: _ => "else" ++ stmtList elseStmts
               end
            ++ "fi").
Proof.
  intros if_ fi conds thenStmts elifs elseStmts.
  split; [apply (IfStmt_String_eq (mkIfStmt if_ fi conds thenStmts elifs elseStmts))|].
  split; [apply (IfStmt_String_eq (mkIfStmt if_ fi conds thenStmts [] []))|].
  split; [apply Elif_String_eq|].
  intros more.
  rewrite (IfStmt_String_eq (mkIfStmt if_ fi conds thenStmts (elifs ++ more) elseStmts)).
  cbn [IfStmt_Conds IfStmt_ThenStmts IfStmt_Elifs IfStmt_ElseStmts].
  rewrite map_app, catAll_append. now rewrite !append_assoc.
Qed.

(** X12. A WhileStmt and an UntilStmt with the same conditions and body
    render to the same text after their keyword: "while" or "until", then
    the inline list of the conditions, "do", the inline list of the body and
    "done", with nothing between these pieces. *)
Theorem While_Until_render :
  forall (p1 p2 q1 q2 : Pos) (conds doStmts : list Stmt),
    let rest := stmtList conds ++ "do" ++ stmtList doStmts ++ "done" in
    WhileStmt_String (mkWhileStmt p1 p2 conds doStmts) = "while" ++ rest /\
    UntilStmt_String (mkUntilStmt q1 q2 conds doStmts) = "until" ++ rest /\
    WhileStmt_String (mkWhileStmt p1 p2 [] []) = "while; do; done".
Proof.
  intros p1 p2 q1 q2 conds doStmts rest. split; [|split; [|reflexivity]].
  - apply (WhileStmt_String_eq (mkWhileStmt p1 p2 conds doStmts)).
  - apply (UntilStmt_String_eq (mkUntilStmt q1 q2 conds doStmts)).
Qed.

Lemma PatternList_String_eq (patterns : list Word) (stmts : list Stmt) :
  PatternList_String (mkPatternList patterns stmts)
  = wordJoin patterns " | " ++ ") " ++ stmtJoin stmts.
Proof.
  change (PatternList_String (mkPatternList patterns stmts))
    with (Sprintf "%s) %s"
            [wordJoin_by Word_String patterns " | "; stmtJoin stmts]).
  rewrite wordJoin_by_eq. simpl. now rewrite append_nil_r.
Qed.

(** X13. A pattern list renders its patterns joined by " | ", then ") ",
    then the terminating join of its statements; when its last statement
    carries a heredoc-type redirect its text ends in a newline, so that what
    the case statement writes next starts on a new line.  A CaseStmt without
    pattern lists renders to "case ", its word and " in; esac". *)
Theorem PatternList_render :
  forall (patterns : list Word) (stmts : list Stmt),
    PatternList_String (mkPatternList patterns stmts)
    = String.concat " | " (map Word_String patterns) ++ ") " ++ stmtJoin stmts /\
    (forall (pre : list Stmt) (s : Stmt),
        stmts = (pre ++ [s])%list -> carriesHeredoc s ->
        endsWith newline (PatternList_String (mkPatternList patterns stmts))) /\
    (forall (case_ esac : Pos) (w : Word),
        CaseStmt_String (mkCaseStmt case_ esac w [])
        = "case " ++ Word_String w ++ " in; esac").
Proof.
  intros patterns stmts.
  split; [|split].
  - rewrite PatternList_String_eq, wordJoin_concat. reflexivity.
  - intros pre s -> Hs. rewrite PatternList_String_eq, stmtJoin_last.
    apply Stmt_newlineAfter_spec in Hs. rewrite Hs.
    exists (wordJoin patterns " | " ++ ") " ++ stmtJoinBefore pre ++ Stmt_String s).
    now rewrite !append_assoc.
  - intros case_ esac w. rewrite CaseStmt_String_eq. reflexivity.
Qed.

Lemma PatternList_render_witness :
  endsWith newline
    (PatternList_String (mkPatternList [litWord "a"] [heredocStmt])).
Proof.
  exact (proj1 (proj2 (PatternList_render [litWord "a"] [heredocStmt]))
           [] heredocStmt eq_refl carriesHeredoc_heredocStmt).
Defined.

(** X14. A function declaration in the bash style renders to "function "
    followed by the text of the same declaration in the other style, which is
    the name, "() " and the render of the body. *)
Theorem FuncDecl_render :
  forall (pos pos' : Pos) (name : Lit) (body : Stmt),
    FuncDecl_String (mkFuncDecl pos false name body)
    = Lit_Value name ++ "() " ++ Stmt_String body /\
    FuncDecl_String (mkFuncDecl pos true name body)
    = "function " ++ FuncDecl_String (mkFuncDecl pos' false name body).
Proof.
  intros pos pos' name body. rewrite !FuncDecl_String_eq. split; reflexivity.
Qed.

(** ** Positions and rendering *)

Lemma Assign_String_eq (name : Lit) (value : Word) :
  Assign_String (mkAssign name value)
  = Lit_String name ++ "=" ++ Word_String value.
Proof.
  change (Assign_String (mkAssign name value))
    with (Sprint [val (Lit_String name); str "="; val (Word_String value)]).
  unfold Sprint, Buffer_String, Buffer_empty. now rewrite Fprint_val_str_val.
Qed.

Lemma Redirect_String_eq (opPos : Pos) (op : Token) (n : Lit) (word : Word) :
  Redirect_String (mkRedirect opPos op n word)
  = Lit_String n ++ Token_String op ++ Word_String word.
Proof.
  change (Redirect_String (mkRedirect opPos op n word))
    with (Sprintf "%s%s%s" [Lit_String n; Token_String op; Word_String word]).
  simpl. now rewrite append_nil_r.
Qed.

Lemma map_erased {A : Type} (String_ : A -> string) (erase : A -> A) (l : list A) :
  Forall (fun x => String_ (erase x) = String_ x) l ->
  map String_ (map erase l) = map String_ l.
Proof.
  intros H. rewrite map_map. induction H as [|x l Hx _ IH]; [reflexivity|].
  simpl. now rewrite Hx, IH.
Qed.

Lemma stmtJoinWithEnd_erased (erase : Stmt -> Stmt) (l : list Stmt) (end_ : bool) :
  (forall s, Stmt_newlineAfter (erase s) = Stmt_newlineAfter s) ->
  Forall (fun s => Stmt_String (erase s) = Stmt_String s) l ->
  stmtJoinWithEnd (map erase l) end_ = stmtJoinWithEnd l end_.
Proof.
  intros Hnl H. induction H as [|s l Hs _ IH]; [reflexivity|].
  destruct l as [|t rest].
  - simpl map. now rewrite !stmtJoinWithEnd_one, Hs, Hnl.
  - change (map erase (s :: t :: rest))
      with (erase s :: erase t :: map erase rest).
    rewrite !stmtJoinWithEnd_two, Hs, Hnl.
    change (erase t :: map erase rest) with (map erase (t :: rest)).
    now rewrite IH.
Qed.

Lemma stmtList_erased (erase : Stmt -> Stmt) (l : list Stmt) :
  (forall s, Stmt_newlineAfter (erase s) = Stmt_newlineAfter s) ->
  Forall (fun s => Stmt_String (erase s) = Stmt_String s) l ->
  stmtList (map erase l) = stmtList l.
Proof.
  intros Hnl H.
  assert (Hj : stmtJoin (map erase l) = stmtJoin l)
    by (now apply stmtJoinWithEnd_erased).
  destruct l as [|s rest]; [reflexivity|].
  change (map erase (s :: rest)) with (erase s :: map erase rest) in *.
  now rewrite !stmtList_cons_eq, Hj.
Qed.

Lemma Stmt_newlineAfter_erasePos (s : Stmt) :
  Stmt_newlineAfter (Stmt_erasePos s) = Stmt_newlineAfter s.
Proof.
  rewrite !Stmt_newlineAfter_existsb.
  destruct s as [node pos negated assigns redirs background].
  simpl Stmt_Redirs.
  induction redirs as [|r rs IH]; [reflexivity|].
  simpl. rewrite IH. destruct r. reflexivity.
Qed.

Lemma Subshell_String_eq (lparen rparen : Pos) (stmts : list Stmt) :
  Subshell_String (mkSubshell lparen rparen stmts)
  = if Nat.eqb (List.length stmts) 0 then "( )" else "(" ++ stmtJoin stmts ++ ")".
Proof. reflexivity. Qed.

Lemma Block_String_eq (lbrace rbrace : Pos) (stmts : list Stmt) :
  Block_String (mkBlock lbrace rbrace stmts) = "{" ++ stmtList stmts ++ "}".
Proof. reflexivity. Qed.

Lemma CmdSubst_String_eq (left right : Pos) (backquotes : bool) (stmts : list Stmt) :
  CmdSubst_String (mkCmdSubst left right backquotes stmts)
  = if backquotes then backquote ++ stmtJoin stmts ++ backquote
    else "$(" ++ stmtJoin stmts ++ ")".
Proof. reflexivity. Qed.

Lemma DblQuoted_String_eq (quote : Pos) (parts : list Node) :
  DblQuoted_String (mkDblQuoted quote parts)
  = dquote ++ Word_String (mkWord parts) ++ dquote.
Proof. reflexivity. Qed.

Lemma ArithmExp_String_eq (exp rparen : Pos) (words : list Word) :
  ArithmExp_String (mkArithmExp exp rparen words)
  = "$((" ++ wordJoin words " " ++ "))".
Proof.
  change (ArithmExp_String (mkArithmExp exp rparen words))
    with ("$((" ++ wordJoin_by Word_String words " " ++ "))").
  now rewrite wordJoin_by_eq.
Qed.

(** Builds the statement for the elements of a list from the statement
    [rec] for one element. *)
Ltac forall_rec rec :=
  match goal with
  | |- Forall _ ?l =>
      induction l; constructor; [apply rec | assumption]
  end.

(** Rendering does not read positions: by mutual induction on the tree.  In
    each case the facts about the children come first; what follows does not
    use the induction any more. *)
Lemma Node_erasePos_String :
  forall n : Node, Node_String (Node_erasePos n) = Node_String n
with Stmt_erasePos_String :
  forall s : Stmt, Stmt_String (Stmt_erasePos s) = Stmt_String s
with Assign_erasePos_String :
  forall a : Assign, Assign_String (Assign_erasePos a) = Assign_String a
with Redirect_erasePos_String :
  forall r : Redirect, Redirect_String (Redirect_erasePos r) = Redirect_String r
with Command_erasePos_String :
  forall c : Command, Command_String (Command_erasePos c) = Command_String c
with Subshell_erasePos_String :
  forall s : Subshell, Subshell_String (Subshell_erasePos s) = Subshell_String s
with Block_erasePos_String :
  forall b : Block, Block_String (Block_erasePos b) = Block_String b
with IfStmt_erasePos_String :
  forall s : IfStmt, IfStmt_String (IfStmt_erasePos s) = IfStmt_String s
with Elif_erasePos_String :
  forall e : Elif, Elif_String (Elif_erasePos e) = Elif_String e
with WhileStmt_erasePos_String :
  forall w : WhileStmt, WhileStmt_String (WhileStmt_erasePos w) = WhileStmt_String w
with UntilStmt_erasePos_String :
  forall u : UntilStmt, UntilStmt_String (UntilStmt_erasePos u) = UntilStmt_String u
with ForStmt_erasePos_String :
  forall f : ForStmt, ForStmt_String (ForStmt_erasePos f) = ForStmt_String f
with BinaryExpr_erasePos_String :
  forall b : BinaryExpr, BinaryExpr_String (BinaryExpr_erasePos b) = BinaryExpr_String b
with FuncDecl_erasePos_String :
  forall f : FuncDecl, FuncDecl_String (FuncDecl_erasePos f) = FuncDecl_String f
with Word_erasePos_String :
  forall w : Word, Word_String (Word_erasePos w) = Word_String w
with DblQuoted_erasePos_String :
  forall q : DblQuoted, DblQuoted_String (DblQuoted_erasePos q) = DblQuoted_String q
with CmdSubst_erasePos_String :
  forall c : CmdSubst, CmdSubst_String (CmdSubst_erasePos c) = CmdSubst_String c
with ArithmExp_erasePos_String :
  forall a : ArithmExp, ArithmExp_String (ArithmExp_erasePos a) = ArithmExp_String a
with CaseStmt_erasePos_String :
  forall c : CaseStmt, CaseStmt_String (CaseStmt_erasePos c) = CaseStmt_String c
with PatternList_erasePos_String :
  forall p : PatternList,
    PatternList_String (PatternList_erasePos p) = PatternList_String p.
Proof.
  all: pose proof Stmt_newlineAfter_erasePos as Hnl.
  - (* Node *)
    intros n. destruct n.
    + apply Stmt_erasePos_String.
    + apply Assign_erasePos_String.
    + apply Command_erasePos_String.
    + apply Subshell_erasePos_String.
    + apply Block_erasePos_String.
    + apply IfStmt_erasePos_String.
    + apply WhileStmt_erasePos_String.
    + apply UntilStmt_erasePos_String.
    + apply ForStmt_erasePos_String.
    + apply BinaryExpr_erasePos_String.
    + apply FuncDecl_erasePos_String.
    + apply Word_erasePos_String.
    + reflexivity.
    + reflexivity.
    + apply DblQuoted_erasePos_String.
    + apply CmdSubst_erasePos_String.
    + reflexivity.
    + apply ArithmExp_erasePos_String.
    + apply CaseStmt_erasePos_String.
  - (* Stmt *)
    intros s. destruct s as [node pos negated assigns redirs background].
    assert (Hn : match node with
                 | Some n => Node_String (Node_erasePos n) = Node_String n
                 | None => True
                 end)
      by (destruct node; [apply Node_erasePos_String | exact I]).
    assert (Ha : Forall (fun a => Assign_String (Assign_erasePos a) = Assign_String a)
                   assigns) by forall_rec Assign_erasePos_String.
    assert (Hr : Forall (fun r => Redirect_String (Redirect_erasePos r)
                                  = Redirect_String r) redirs)
      by forall_rec Redirect_erasePos_String.
    clear - Hn Ha Hr.
    rewrite !Stmt_String_concat. f_equal. unfold Stmt_parts.
    cbn [Stmt_erasePos Stmt_Negated Stmt_Node Stmt_Assigns Stmt_Redirs
           Stmt_Background].
    rewrite (map_erased _ _ _ Ha), (map_erased _ _ _ Hr).
    destruct node; [rewrite Hn|]; reflexivity.
  - (* Assign *)
    intros a. destruct a as [name value].
    pose proof (Word_erasePos_String value) as Hv. clear - Hv.
    cbn [Assign_erasePos]. rewrite !Assign_String_eq, Hv. reflexivity.
  - (* Redirect *)
    intros r. destruct r as [opPos op n word].
    pose proof (Word_erasePos_String word) as Hw. clear - Hw.
    cbn [Redirect_erasePos]. rewrite !Redirect_String_eq, Hw. reflexivity.
  - (* Command *)
    intros c. destruct c as [args].
    assert (Hw : Forall (fun w => Word_String (Word_erasePos w) = Word_String w) args)
      by forall_rec Word_erasePos_String.
    clear - Hw. cbn [Command_erasePos].
    rewrite !Command_String_wordJoin, !wordJoin_concat, (map_erased _ _ _ Hw).
    reflexivity.
  - (* Subshell *)
    intros s. destruct s as [lparen rparen stmts].
    assert (Hs : Forall (fun s => Stmt_String (Stmt_erasePos s) = Stmt_String s) stmts)
      by forall_rec Stmt_erasePos_String.
    clear - Hs Hnl. cbn [Subshell_erasePos].
    rewrite !Subshell_String_eq, length_map. unfold stmtJoin.
    now rewrite (stmtJoinWithEnd_erased _ _ _ Hnl Hs).
  - (* Block *)
    intros b. destruct b as [lbrace rbrace stmts].
    assert (Hs : Forall (fun s => Stmt_String (Stmt_erasePos s) = Stmt_String s) stmts)
      by forall_rec Stmt_erasePos_String.
    clear - Hs Hnl. cbn [Block_erasePos].
    now rewrite !Block_String_eq, (stmtList_erased _ _ Hnl Hs).
  - (* IfStmt *)
    intros s. destruct s as [if_ fi conds thenStmts elifs elseStmts].
    assert (Hc : Forall (fun s => Stmt_String (Stmt_erasePos s) = Stmt_String s) conds)
      by forall_rec Stmt_erasePos_String.
    assert (Ht : Forall (fun s => Stmt_String (Stmt_erasePos s) = Stmt_String s)
                   thenStmts) by forall_rec Stmt_erasePos_String.
    assert (He : Forall (fun e => Elif_String (Elif_erasePos e) = Elif_String e) elifs)
      by forall_rec Elif_erasePos_String.
    assert (Hl : Forall (fun s => Stmt_String (Stmt_erasePos s) = Stmt_String s)
                   elseStmts) by forall_rec Stmt_erasePos_String.
    clear - Hc Ht He Hl Hnl. cbn [IfStmt_erasePos].
    rewrite !IfStmt_String_eq.
    cbn [IfStmt_Conds IfStmt_ThenStmts IfStmt_Elifs IfStmt_ElseStmts].
    rewrite (stmtList_erased _ _ Hnl Hc), (stmtList_erased _ _ Hnl Ht),
      (map_erased _ _ _ He), (stmtList_erased _ _ Hnl Hl).
    destruct elseStmts; reflexivity.
  - (* Elif *)
    intros e. destruct e as [elif conds thenStmts].
    assert (Hc : Forall (fun s => Stmt_String (Stmt_erasePos s) = Stmt_String s) conds)
      by forall_rec Stmt_erasePos_String.
    assert (Ht : Forall (fun s => Stmt_String (Stmt_erasePos s) = Stmt_String s)
                   thenStmts) by forall_rec Stmt_erasePos_String.
    clear - Hc Ht Hnl. cbn [Elif_erasePos].
    rewrite !Elif_String_eq. cbn [Elif_Conds Elif_ThenStmts].
    now rewrite (stmtList_erased _ _ Hnl Hc), (stmtList_erased _ _ Hnl Ht).
  - (* WhileStmt *)
    intros w. destruct w as [while done conds doStmts].
    assert (Hc : Forall (fun s => Stmt_String (Stmt_erasePos s) = Stmt_String s) conds)
      by forall_rec Stmt_erasePos_String.
    assert (Hd : Forall (fun s => Stmt_String (Stmt_erasePos s) = Stmt_String s)
                   doStmts) by forall_rec Stmt_erasePos_String.
    clear - Hc Hd Hnl. cbn [WhileStmt_erasePos].
    rewrite !WhileStmt_String_eq. cbn [WhileStmt_Conds WhileStmt_DoStmts].
    now rewrite (stmtList_erased _ _ Hnl Hc), (stmtList_erased _ _ Hnl Hd).
  - (* UntilStmt *)
    intros u. destruct u as [until done conds doStmts].
    assert (Hc : Forall (fun s => Stmt_String (Stmt_erasePos s) = Stmt_String s) conds)
      by forall_rec Stmt_erasePos_String.
    assert (Hd : Forall (fun s => Stmt_String (Stmt_erasePos s) = Stmt_String s)
                   doStmts) by forall_rec Stmt_erasePos_String.
    clear - Hc Hd Hnl. cbn [UntilStmt_erasePos].
    rewrite !UntilStmt_String_eq. cbn [UntilStmt_Conds UntilStmt_DoStmts].
    now rewrite (stmtList_erased _ _ Hnl Hc), (stmtList_erased _ _ Hnl Hd).
  - (* ForStmt *)
    intros f. destruct f as [for_ done name wordList doStmts].
    assert (Hw : Forall (fun w => Word_String (Word_erasePos w) = Word_String w)
                   wordList) by forall_rec Word_erasePos_String.
    assert (Hd : Forall (fun s => Stmt_String (Stmt_erasePos s) = Stmt_String s)
                   doStmts) by forall_rec Stmt_erasePos_String.
    clear - Hw Hd Hnl. cbn [ForStmt_erasePos].
    rewrite !ForStmt_String_eq, !wordJoin_concat, (map_erased _ _ _ Hw),
      (stmtList_erased _ _ Hnl Hd).
    destruct wordList; reflexivity.
  - (* BinaryExpr *)
    intros b. destruct b as [opPos op x y].
    pose proof (Stmt_erasePos_String x) as Hx.
    pose proof (Stmt_erasePos_String y) as Hy. clear - Hx Hy.
    cbn [BinaryExpr_erasePos]. now rewrite !BinaryExpr_String_eq, Hx, Hy.
  - (* FuncDecl *)
    intros f. destruct f as [pos bashStyle name body].
    pose proof (Stmt_erasePos_String body) as Hb. clear - Hb.
    cbn [FuncDecl_erasePos]. now rewrite !FuncDecl_String_eq, Hb.
  - (* Word *)
    intros w. destruct w as [parts].
    assert (Hp : Forall (fun n => Node_String (Node_erasePos n) = Node_String n) parts)
      by forall_rec Node_erasePos_String.
    clear - Hp. cbn [Word_erasePos].
    now rewrite !Word_String_catAll, (map_erased _ _ _ Hp).
  - (* DblQuoted *)
    intros q. destruct q as [quote parts].
    assert (Hp : Forall (fun n => Node_String (Node_erasePos n) = Node_String n) parts)
      by forall_rec Node_erasePos_String.
    clear - Hp. cbn [DblQuoted_erasePos].
    now rewrite !DblQuoted_String_eq, !Word_String_catAll, (map_erased _ _ _ Hp).
  - (* CmdSubst *)
    intros c. destruct c as [left right backquotes stmts].
    assert (Hs : Forall (fun s => Stmt_String (Stmt_erasePos s) = Stmt_String s) stmts)
      by forall_rec Stmt_erasePos_String.
    clear - Hs Hnl. cbn [CmdSubst_erasePos].
    rewrite !CmdSubst_String_eq. unfold stmtJoin.
    now rewrite (stmtJoinWithEnd_erased _ _ _ Hnl Hs).
  - (* ArithmExp *)
    intros a. destruct a as [exp rparen words].
    assert (Hw : Forall (fun w => Word_String (Word_erasePos w) = Word_String w) words)
      by forall_rec Word_erasePos_String.
    clear - Hw. cbn [ArithmExp_erasePos].
    now rewrite !ArithmExp_String_eq, !wordJoin_concat, (map_erased _ _ _ Hw).
  - (* CaseStmt *)
    intros c. destruct c as [case_ esac word list].
    pose proof (Word_erasePos_String word) as Hw.
    assert (Hl : Forall (fun p => PatternList_String (PatternList_erasePos p)
                                  = PatternList_String p) list)
      by forall_rec PatternList_erasePos_String.
    clear - Hw Hl. cbn [CaseStmt_erasePos].
    rewrite !CaseStmt_String_eq, Hw, (map_erased _ _ _ Hl).
    destruct list; reflexivity.
  - (* PatternList *)
    intros p. destruct p as [patterns stmts].
    assert (Hw : Forall (fun w => Word_String (Word_erasePos w) = Word_String w)
                   patterns) by forall_rec Word_erasePos_String.
    assert (Hs : Forall (fun s => Stmt_String (Stmt_erasePos s) = Stmt_String s) stmts)
      by forall_rec Stmt_erasePos_String.
    clear - Hw Hs Hnl. cbn [PatternList_erasePos].
    rewrite !PatternList_String_eq, !wordJoin_concat, (map_erased _ _ _ Hw).
    unfold stmtJoin. now rewrite (stmtJoinWithEnd_erased _ _ _ Hnl Hs).
Qed.

Lemma Node_erasePos_Pos :
  forall n : Node, Node_Pos (Node_erasePos n) = defaultPos
with Command_erasePos_Pos :
  forall c : Command, Command_Pos (Command_erasePos c) = defaultPos
with Word_erasePos_Pos :
  forall w : Word, Word_Pos (Word_erasePos w) = defaultPos.
Proof.
  - intros n. destruct n.
    + destruct s. reflexivity.
    + destruct a. reflexivity.
    + apply Command_erasePos_Pos.
    + destruct s. reflexivity.
    + destruct b. reflexivity.
    + destruct s. reflexivity.
    + destruct w. reflexivity.
    + destruct u. reflexivity.
    + destruct f. reflexivity.
    + destruct b as [opPos op x y]. destruct x. reflexivity.
    + destruct f. reflexivity.
    + apply Word_erasePos_Pos.
    + reflexivity.
    + reflexivity.
    + destruct q. reflexivity.
    + destruct c. reflexivity.
    + reflexivity.
    + destruct a. reflexivity.
    + destruct c. reflexivity.
  - intros c. destruct c as [args]. destruct args as [|w ws]; [reflexivity|].
    apply (Word_erasePos_Pos w).
  - intros w. destruct w as [parts]. destruct parts as [|n ns]; [reflexivity|].
    apply (Node_erasePos_Pos n).
Qed.

(** X15. Rendering does not read positions.  Setting every position field
    of a tree to the unknown position (after which every node of the tree
    reports the unknown position) leaves its text unchanged, for every
    node and for a File; so two trees that differ in position fields only
    render to the same text.  The name of a File is not read either. *)
Theorem render_ignores_positions :
  (forall n : Node, Node_String (Node_erasePos n) = Node_String n) /\
  (forall f : File, File_String (File_erasePos f) = File_String f) /\
  (forall n : Node, Node_Pos (Node_erasePos n) = defaultPos) /\
  (forall n1 n2 : Node,
      Node_erasePos n1 = Node_erasePos n2 -> Node_String n1 = Node_String n2) /\
  (forall f1 f2 : File,
      File_Stmts (File_erasePos f1) = File_Stmts (File_erasePos f2) ->
      File_String f1 = File_String f2).
Proof.
  assert (HF : forall f : File, File_String (File_erasePos f) = File_String f).
  { intros f. unfold File_String, File_erasePos. simpl File_Stmts.
    apply stmtJoinWithEnd_erased; [apply Stmt_newlineAfter_erasePos|].
    induction (File_Stmts f); constructor;
      [apply Stmt_erasePos_String | assumption]. }
  split; [exact Node_erasePos_String|]. split; [exact HF|].
  split; [exact Node_erasePos_Pos|]. split.
  - intros n1 n2 H.
    rewrite <- (Node_erasePos_String n1), <- (Node_erasePos_String n2).
    now rewrite H.
  - intros f1 f2 H. rewrite <- (HF f1), <- (HF f2).
    unfold File_String. now rewrite H.
Qed.

Lemma render_ignores_positions_witness :
  Node_String (LitNode (mkLit (mkPos 3 7) "echo"))
  = Node_String (LitNode (mkLit (mkPos 12 1) "echo")).
Proof.
  apply (proj1 (proj2 (proj2 (proj2 render_ignores_positions)))).
  reflexivity.
Defined.

(** ** Literals *)

